(** * Lucky-bot: the betting ledger and its settlement

    A shallow embedding of [src/main.py]: the three SQLite tables
    ([users], [bets], [highest_bet]), the ledger helpers
    ([get_user_balance], [set_user_balance], [place_bet], ...), and the
    handlers that drive them ([on_message], [on_raw_reaction_add],
    [on_raw_reaction_remove], [cmd_balance], [cmd_addcoins], [cmd_resolve]).

    Python integers are unbounded, so they are [Z].  Python floats are IEEE 754
    binary64; they are [spec_float] with the operations of the Standard
    Library's [SpecFloat] at precision 53 and maximal exponent 1024. *)

From Stdlib Require Import ZArith Lia SpecFloat.
From stdpp Require Import gmap strings list.
Local Open Scope Z_scope.

(* ===================================================================== *)
(** * Part I: definitions                                                 *)
(* ===================================================================== *)

(** ** Python exceptions and the error monad *)

Inductive exn :=
  | ValueError (msg : string)
  | OverflowError
  | ZeroDivisionError.

(** A computation that may raise: [inl e] is [raise e], [inr a] returns. *)
Definition py (A : Type) : Type := (exn + A)%type.

Definition ret {A} (a : A) : py A := inr a.
Definition raise {A} (e : exn) : py A := inl e.
Definition bind {A B} (c : py A) (k : A -> py B) : py B :=
  match c with
  | inl e => inl e
  | inr a => k a
  end.

Notation "'let*' x ':=' c 'in' k" := (bind c (fun x => k))
  (at level 10, x name, c at level 100, k at level 200).

(** ** Python numbers *)

Module Py.

(** binary64 *)
Definition prec : Z := 53.
Definition emax : Z := 1024.

(** The literals [1.0] and [0.25]; both are powers of two. *)
Definition float_1_0 : spec_float := binary_normalize prec emax 1 0 false.
Definition float_0_25 : spec_float := binary_normalize prec emax 1 (-2) false.

(** [float(a)] for an [int]: the nearest double, ties to even;
    [OverflowError: int too large to convert to float] beyond the range. *)
Definition float_of_int (a : Z) : py spec_float :=
  match binary_normalize prec emax a 0 false with
  | S754_infinity _ => raise OverflowError
  | x => ret x
  end.

(** [a / b] on two [int]s: true division.  CPython rounds the exact
    quotient once (it does not divide [float(a)] by [float(b)]), so the
    operands enter [SFdiv] as the integers they are, with exponent 0;
    [SFdiv_core_binary] shifts the dividend as far as the precision needs.
    [ZeroDivisionError] for [b = 0], [OverflowError] when the quotient
    exceeds the doubles. *)
Definition int_truediv (a b : Z) : py spec_float :=
  match a, b with
  | _, Z0 => raise ZeroDivisionError
  | Z0, Zpos _ => ret (S754_zero false)
  | Z0, Zneg _ => ret (S754_zero true)
  | Zpos ma, Zpos mb =>
      match SFdiv prec emax (S754_finite false ma 0) (S754_finite false mb 0) with
      | S754_infinity _ => raise OverflowError
      | x => ret x
      end
  | Zpos ma, Zneg mb =>
      match SFdiv prec emax (S754_finite false ma 0) (S754_finite true mb 0) with
      | S754_infinity _ => raise OverflowError
      | x => ret x
      end
  | Zneg ma, Zpos mb =>
      match SFdiv prec emax (S754_finite true ma 0) (S754_finite false mb 0) with
      | S754_infinity _ => raise OverflowError
      | x => ret x
      end
  | Zneg ma, Zneg mb =>
      match SFdiv prec emax (S754_finite true ma 0) (S754_finite true mb 0) with
      | S754_infinity _ => raise OverflowError
      | x => ret x
      end
  end.

Definition float_mul (x y : spec_float) : spec_float := SFmul prec emax x y.
Definition float_lt (x y : spec_float) : bool := SFltb x y.

(** [a * x] for an [int] [a] and a [float] [x]: [float.__rmul__]
    converts [a] first. *)
Definition int_mul_float (a : Z) (x : spec_float) : py spec_float :=
  let* fa := float_of_int a in ret (float_mul fa x).

(** The builtins [min(a, b)] and [max(a, b)]: the first argument is kept
    unless the second is strictly smaller (resp. strictly larger). *)
Definition min2 (a b : spec_float) : spec_float := if float_lt b a then b else a.
Definition max2 (a b : spec_float) : spec_float := if float_lt a b then b else a.

(** [int(x)] on a [float]: truncation toward zero; raises on the
    infinities and on NaN. *)
Definition int_of_float (x : spec_float) : py Z :=
  match x with
  | S754_nan => raise (ValueError "cannot convert float NaN to integer")
  | S754_infinity _ => raise OverflowError
  | S754_zero _ => ret 0
  | S754_finite s m e => ret (cond_Zopp s (Z.shiftl (Zpos m) e))
  end.

(** [math.floor(n)] on an [int] is [n.__floor__()], the integer itself;
    [int(...)] of an [int] likewise. *)
Definition math_floor (n : Z) : Z := n.
Definition int (n : Z) : Z := n.

(** Truthiness of an [int]. *)
Definition truthy (n : Z) : bool := negb (n =? 0).

End Py.

(** ** Configuration (lines 47-52) *)

Definition DEFAULT_START_BALANCE : Z := 100.
Definition DEFAULT_REACTION_STAKE : Z := 1.

(** The columns [users.balance] and [bets.amount] are declared [INTEGER]
    (lines 60 and 66): SQLite holds a signed 64-bit value there, and the
    [sqlite3] binding raises [OverflowError] on a Python [int] above it,
    before the statement runs. *)
Definition INT64_MAX : Z := 2 ^ 63 - 1.

(** ** The database (lines 55-82)

    [users] has [user_id] as primary key: a finite map.  [bets] is kept as
    the list of its rows, in insertion order; [highest_bet] holds at
    most the row with [id = 1].  Identifiers are the [TEXT] the tables
    store ([str(user.id)], [str(message.id)]). *)

Record bet_row := {
  message_id : string;
  user_id : string;
  choice : Z;
  amount : Z;
  resolved : Z
}.

Record highest_row := {
  hb_user_id : string;
  hb_message_id : string;
  hb_choice : Z;
  hb_amount : Z
}.

Record db := {
  users : gmap string Z;
  bets : list bet_row;
  highest_bet : option highest_row
}.

Definition init_db : db := {| users := ∅; bets := []; highest_bet := None |}.

(** ** Ledger helpers *)

(** Lines 95-100.  The [INSERT ... ON CONFLICT DO UPDATE] is an upsert.
    This is the write of a value the column holds: for [safe_bal] above
    [INT64_MAX] the binding raises and nothing is stored, so a property of a
    write that can ask for more has [<= INT64_MAX] among its hypotheses. *)
Definition set_user_balance (d : db) (uid : string) (new_balance : Z) : db * Z :=
  let safe_bal := Z.max 1 (Py.int (Py.math_floor new_balance)) in
  ({| users := <[uid := safe_bal]> (users d);
      bets := bets d;
      highest_bet := highest_bet d |}, safe_bal).

(** Lines 84-93. *)
Definition get_user_balance (d : db) (uid : string) : db * Z :=
  match users d !! uid with
  | None =>
      let '(d', _) := set_user_balance d uid DEFAULT_START_BALANCE in
      (d', DEFAULT_START_BALANCE)
  | Some balance => (d, Py.int balance)
  end.

Definition same_key (mid uid : string) (b : bet_row) : bool :=
  bool_decide (message_id b = mid) && bool_decide (user_id b = uid).

(** Lines 102-133.  The [ValueError] leaves before anything is written; the
    insert and the record update are committed together. *)
Definition DuplicateBetError : exn :=
  ValueError "You already placed a bet on this message.".

Definition place_bet (d : db) (mid uid : string) (ch amt : Z) : py db :=
  let amt := Py.int (Py.math_floor amt) in
  match find (same_key mid uid) (bets d) with
  | Some _ => raise DuplicateBetError
  | None =>
      let row := {| message_id := mid; user_id := uid; choice := ch;
                    amount := amt; resolved := 0 |} in
      let record := hb_amount <$> highest_bet d in
      let overwrite :=
        match record with
        | None => true
        | Some best => best <? amt
        end in
      ret {| users := users d;
             bets := bets d ++ [row];
             highest_bet :=
               if overwrite
               then Some {| hb_user_id := uid; hb_message_id := mid;
                            hb_choice := ch; hb_amount := amt |}
               else highest_bet d |}
  end.

(** Lines 135-140. *)
Definition get_bets_for_message (d : db) (mid : string) : list bet_row :=
  filter (fun b => message_id b = mid) (bets d).

(** Lines 142-145. *)
Definition mark_bets_resolved (d : db) (mid : string) : db :=
  {| users := users d;
     bets := (fun b => if bool_decide (message_id b = mid)
                       then {| message_id := message_id b; user_id := user_id b;
                               choice := choice b; amount := amount b;
                               resolved := 1 |}
                       else b) <$> bets d;
     highest_bet := highest_bet d |}.

(** Lines 490-493: [DELETE FROM bets WHERE message_id = ?]. *)
Definition delete_bets (d : db) (mid : string) : db :=
  {| users := users d;
     bets := filter (fun b => message_id b ≠ mid) (bets d);
     highest_bet := highest_bet d |}.

(** ** The payout (lines 471-477) *)

Definition odds_of (total_winning total_losing : Z) : py spec_float :=
  if (total_winning =? 0) || (total_losing =? 0) then ret Py.float_1_0
  else
    let* ratio := Py.int_truediv total_losing total_winning in
    ret (Py.max2 Py.float_0_25 (Py.min2 Py.float_1_0 ratio)).

Definition payout_of (amt total_winning total_losing : Z) : py Z :=
  let* odds := odds_of total_winning total_losing in
  let* bonus := Py.int_mul_float amt odds in
  let* whole := Py.int_of_float bonus in
  ret (amt + whole).

(** ** Settlement (lines 448-493) *)

Inductive outcome_t := won | lost.

Record result_row := {
  res_user_id : string;
  outcome : outcome_t;
  stake : Z;
  payout : Z
}.

Definition sum_amounts (bs : list bet_row) : Z :=
  foldr (fun b acc => amount b + acc) 0 bs.

Definition total_for (winning_choice : Z) (bs : list bet_row) : Z :=
  sum_amounts (filter (fun b => choice b = winning_choice) bs).

Definition total_against (winning_choice : Z) (bs : list bet_row) : Z :=
  sum_amounts (filter (fun b => choice b ≠ winning_choice) bs).

(** The rows of [results] (lines 483 and 485). *)
Definition won_row (b : bet_row) (p : Z) : result_row :=
  {| res_user_id := user_id b; outcome := won; stake := amount b; payout := p |}.

Definition lost_row (b : bet_row) : result_row :=
  {| res_user_id := user_id b; outcome := lost; stake := amount b; payout := 0 |}.

(** The loop of lines 469-485.  Each credit is committed by
    [set_user_balance] as it happens, so an exception leaves the database
    as the earlier iterations made it. *)
Fixpoint pay_bets (winning_choice total_winning total_losing : Z)
    (bs : list bet_row) (d : db) (results : list result_row)
    : db * py (list result_row) :=
  match bs with
  | [] => (d, ret results)
  | b :: rest =>
      if bool_decide (choice b = winning_choice) then
        match payout_of (amount b) total_winning total_losing with
        | inl e => (d, raise e)
        | inr p =>
            let '(d1, cur_bal) := get_user_balance d (user_id b) in
            let new_bal := cur_bal + p in
            let '(d2, _) := set_user_balance d1 (user_id b) new_bal in
            pay_bets winning_choice total_winning total_losing rest d2
              (results ++ [won_row b p])
        end
      else
        pay_bets winning_choice total_winning total_losing rest d
          (results ++ [lost_row b])
  end.

(** What [cmd_resolve] answers.  The first six are the early returns with
    their message; [Resolved] is the end of the database part (line 493),
    with what the summary is built from: the summary itself (lines 495-522,
    with its [bot.fetch_user] and its send) is not modelled, and an exception
    there leaves every write in place; [Crashed] is an exception that leaves
    the handler before the deletion. *)
Inductive resolve_reply :=
  | InvalidChoice          (* 'Winning choice must be 1 or 2.' *)
  | NoBetsChannel          (* 'Could not find a #... channel.' *)
  | NotFoundError          (* 'Could not find that message in the #bets channel. ...' *)
  | NotAuthorizedError     (* 'Only the bet message author, a moderator ... can resolve this bet.' *)
  | NoBetsError            (* 'No bets were placed on this message.' *)
  | AlreadyResolvedError   (* 'This bet has already been resolved.' *)
  | Resolved (total_winning total_losing : Z) (results : list result_row)
  | Crashed (e : exn).

Definition settle (d : db) (mid : string) (winning_choice : Z) : db * resolve_reply :=
  let bs := get_bets_for_message d mid in
  match bs with
  | [] => (d, NoBetsError)
  | _ :: _ =>
      if existsb (fun b => Py.truthy (resolved b)) bs then (d, AlreadyResolvedError)
      else
        let total_winning := total_for winning_choice bs in
        let total_losing := total_against winning_choice bs in
        match pay_bets winning_choice total_winning total_losing bs d [] with
        | (d1, inl e) => (d1, Crashed e)
        | (d1, inr results) =>
            let d2 := mark_bets_resolved d1 mid in
            let d3 := delete_bets d2 mid in
            (d3, Resolved total_winning total_losing results)
        end
  end.

(** ** What the handlers see of Discord *)

Record permissions := {
  manage_guild : bool;
  manage_messages : bool;
  administrator : bool
}.

(** The invoking member of a slash command. *)
Record interaction := {
  invoker_id : Z;
  guild_permissions : permissions
}.

(** A message of the bets channel: its id as the tables store it
    ([str(message.id)]) and its author. *)
Record message := {
  msg_id : string;
  msg_author_id : Z
}.

(** [find_bets_channel(interaction.guild)]: no channel, or the channel with
    its [fetch_message(int(message_id))], [None] standing for every exception
    of the lookup (and of the [int(...)]). *)
Record guild := {
  bets_channel : option (string -> option message)
}.

(** ** /resolve (lines 424-522) *)

(** Lines 426-446: the early returns before any bet is read. *)
Definition resolve_guards (OWNER_ID : option Z) (i : interaction) (g : guild)
    (mid : string) (winning_choice : Z) : resolve_reply + message :=
  if negb ((winning_choice =? 1) || (winning_choice =? 2)) then inl InvalidChoice
  else
    match bets_channel g with
    | None => inl NoBetsChannel
    | Some fetch_message =>
        match fetch_message mid with
        | None => inl NotFoundError
        | Some msg =>
            let perms := guild_permissions i in
            let is_admin := manage_messages perms || administrator perms in
            if negb (invoker_id i =? msg_author_id msg)
               && negb (bool_decide (Some (invoker_id i) = OWNER_ID))
               && negb is_admin
            then inl NotAuthorizedError
            else inr msg
        end
    end.

Definition cmd_resolve (OWNER_ID : option Z) (i : interaction) (g : guild)
    (d : db) (mid : string) (winning_choice : Z) : db * resolve_reply :=
  match resolve_guards OWNER_ID i g mid winning_choice with
  | inl reply => (d, reply)
  | inr msg => settle d (msg_id msg) winning_choice
  end.

(** [/resolve] in two parts, as it runs when the event loop gives the turn
    to another handler at one of the [await]s between the read of the bets
    (line 449) and the first write: [cmd_resolve_begin] is lines 426-453, the
    checks and the read; [cmd_resolve_finish] is lines 455-493, the totals,
    the credits, the flag and the deletion, on the bets read before and on the
    database as it is by then. *)
Record resolve_task := {
  rt_message : string;
  rt_choice : Z;
  rt_bets : list bet_row
}.

Definition cmd_resolve_begin (OWNER_ID : option Z) (i : interaction) (g : guild)
    (d : db) (mid : string) (winning_choice : Z) : resolve_reply + resolve_task :=
  match resolve_guards OWNER_ID i g mid winning_choice with
  | inl reply => inl reply
  | inr msg =>
      let bs := get_bets_for_message d (msg_id msg) in
      match bs with
      | [] => inl NoBetsError
      | _ :: _ =>
          if existsb (fun b => Py.truthy (resolved b)) bs then inl AlreadyResolvedError
          else inr {| rt_message := msg_id msg; rt_choice := winning_choice; rt_bets := bs |}
      end
  end.

Definition cmd_resolve_finish (d : db) (t : resolve_task) : db * resolve_reply :=
  let bs := rt_bets t in
  let total_winning := total_for (rt_choice t) bs in
  let total_losing := total_against (rt_choice t) bs in
  match pay_bets (rt_choice t) total_winning total_losing bs d [] with
  | (d1, inl e) => (d1, Crashed e)
  | (d1, inr results) =>
      let d2 := mark_bets_resolved d1 (rt_message t) in
      let d3 := delete_bets d2 (rt_message t) in
      (d3, Resolved total_winning total_losing results)
  end.

(** ** /balance (lines 398-401) and /addcoins (lines 405-420) *)

Definition cmd_balance (d : db) (target : string) : db * Z :=
  get_user_balance d target.

Inductive addcoins_reply :=
  | NotAllowed                        (* 'Only the bot owner or server administrators ...' *)
  | Adjusted (amount newbal : Z).     (* 'Adjusted ...'s balance by {amount} coins. New balance: {newbal}.' *)

Definition addcoins_allowed (OWNER_ID : option Z) (i : interaction) : bool :=
  let perms := guild_permissions i in
  let is_admin := manage_guild perms || administrator perms in
  match OWNER_ID with
  | Some owner => (invoker_id i =? owner) || is_admin
  | None => is_admin
  end.

Definition cmd_addcoins (OWNER_ID : option Z) (i : interaction) (d : db)
    (uid : string) (amt : Z) : db * addcoins_reply :=
  if negb (addcoins_allowed OWNER_ID i) then (d, NotAllowed)
  else
    let '(d1, cur) := get_user_balance d uid in
    let newbal := cur + amt in
    let '(d2, _) := set_user_balance d1 uid newbal in
    (d2, Adjusted amt newbal).

(** ** The stake prompt (lines 43-44, 201-235)

    [pending_stakes] maps a user to the message and the choice the bot is
    waiting a stake for.  The user is keyed here by the same text the
    tables use; [str] is injective on the ids. *)

Record state := {
  st_db : db;
  pending_stakes : gmap string (string * Z)
}.

Definition init_state : state := {| st_db := init_db; pending_stakes := ∅ |}.

Inductive dm_reply :=
  | NoPendingStake                     (* the silent [return] of line 205 *)
  | InvalidStakeError                  (* 'Please enter a valid number for your bet.' *)
  | InsufficientBalanceError (bal amount : Z)  (* 'You only have {bal} coins, you cannot bet {amount}.' *)
  | MinimumBetError                    (* 'Minimum bet is 1 coin.' *)
  | PlaceBetFailed (e : exn)           (* [str(e)] of the [ValueError] of [place_bet] *)
  | BetPlaced (amount choice : Z).     (* 'Your bet of {amount} coins on option {choice} has been placed!' *)

(** A direct message being handled, suspended at the first [await]
    (line 216): the pending entry is popped already, nothing is read from the
    database yet. *)
Record dm_task := {
  task_user : string;
  task_msg_id : string;
  task_choice : Z;
  task_amount : Z
}.

(** Lines 203-213, which run without suspension.  [content] is
    [int(message.content.strip())], [None] for its [ValueError]. *)
Definition on_message_begin (st : state) (uid : string) (content : option Z)
    : state * (dm_reply + dm_task) :=
  match pending_stakes st !! uid with
  | None => (st, inl NoPendingStake)
  | Some (mid, ch) =>
      match content with
      | None => (st, inl InvalidStakeError)
      | Some amt =>
          ({| st_db := st_db st; pending_stakes := delete uid (pending_stakes st) |},
           inr {| task_user := uid; task_msg_id := mid;
                  task_choice := ch; task_amount := amt |})
      end
  end.

(** Lines 215-235. *)
Definition on_message_finish (st : state) (t : dm_task) : state * dm_reply :=
  let uid := task_user t in
  let amt := task_amount t in
  let '(d1, bal) := get_user_balance (st_db st) uid in
  if bal <? amt then
    ({| st_db := d1;
        pending_stakes := <[uid := (task_msg_id t, task_choice t)]> (pending_stakes st) |},
     InsufficientBalanceError bal amt)
  else if amt <? 1 then
    ({| st_db := d1;
        pending_stakes := <[uid := (task_msg_id t, task_choice t)]> (pending_stakes st) |},
     MinimumBetError)
  else
    let '(d2, _) := set_user_balance d1 uid (bal - amt) in
    match place_bet d2 (task_msg_id t) uid (task_choice t) amt with
    | inl e => ({| st_db := d2; pending_stakes := pending_stakes st |}, PlaceBetFailed e)
    | inr d3 => ({| st_db := d3; pending_stakes := pending_stakes st |},
                 BetPlaced amt (task_choice t))
    end.

(** The direct-message branch of [on_message] when nothing else runs in
    between. *)
Definition on_message (st : state) (uid : string) (content : option Z)
    : state * dm_reply :=
  match on_message_begin st uid content with
  | (st1, inl reply) => (st1, reply)
  | (st1, inr t) => on_message_finish st1 t
  end.

(** ** Reactions (lines 245-363)

    Past the checks on the guild, the channel, the pattern and the emoji,
    which decide [mid] and [ch]. *)
Definition on_raw_reaction_add (st : state) (uid mid : string) (ch : Z) : state :=
  let bs := get_bets_for_message (st_db st) mid in
  match find (fun b => bool_decide (user_id b = uid) && (resolved b =? 0)) bs with
  | Some confirmed_bet => st
  | None =>
      match pending_stakes st !! uid with
      | Some (m, prev_choice) =>
          if bool_decide (m = mid) then st
          else {| st_db := st_db st; pending_stakes := <[uid := (mid, ch)]> (pending_stakes st) |}
      | None =>
          {| st_db := st_db st; pending_stakes := <[uid := (mid, ch)]> (pending_stakes st) |}
      end
  end.

(** The second definition (lines 332-363) is the one in force. *)
Definition on_raw_reaction_remove (st : state) (uid mid : string) : state :=
  match pending_stakes st !! uid with
  | Some (m, _) =>
      if bool_decide (m = mid)
      then {| st_db := st_db st; pending_stakes := delete uid (pending_stakes st) |}
      else st
  | None => st
  end.

(** ** The bot as a transition system

    One event loop runs the handlers.  A handler is taken as one step, except
    the direct-message handler, which is two: [DmArrives] runs it up to its
    first [await] and parks the task, [DmResumes] runs a parked task to its
    end.  Other handlers may run in between.  [/resolve] is there both ways:
    [Resolve] is a resolution that nothing interleaves with,
    [ResolveArrives] one that is suspended after its checks and its read of
    the bets, and [ResolveResumes] the rest of a suspended one. *)

Inductive event :=
  | Balance (target : string)
  | AddCoins (i : interaction) (uid : string) (amt : Z)
  | Resolve (i : interaction) (g : guild) (mid : string) (winning_choice : Z)
  | ReactionAdd (uid mid : string) (ch : Z)
  | ReactionRemove (uid mid : string)
  | DmArrives (uid : string) (content : option Z)
  | DmResumes (n : nat)
  | ResolveArrives (i : interaction) (g : guild) (mid : string) (winning_choice : Z)
  | ResolveResumes (n : nat).

Record bot := {
  bot_state : state;
  parked : list dm_task;
  resolving : list resolve_task
}.

Definition init_bot : bot :=
  {| bot_state := init_state; parked := []; resolving := [] |}.

Definition with_db (st : state) (d : db) : state :=
  {| st_db := d; pending_stakes := pending_stakes st |}.

Definition step (OWNER_ID : option Z) (b : bot) (ev : event) : bot :=
  let st := bot_state b in
  match ev with
  | Balance target =>
      {| bot_state := with_db st (cmd_balance (st_db st) target).1;
         parked := parked b; resolving := resolving b |}
  | AddCoins i uid amt =>
      {| bot_state := with_db st (cmd_addcoins OWNER_ID i (st_db st) uid amt).1;
         parked := parked b; resolving := resolving b |}
  | Resolve i g mid winning_choice =>
      {| bot_state := with_db st (cmd_resolve OWNER_ID i g (st_db st) mid winning_choice).1;
         parked := parked b; resolving := resolving b |}
  | ReactionAdd uid mid ch =>
      {| bot_state := on_raw_reaction_add st uid mid ch;
         parked := parked b; resolving := resolving b |}
  | ReactionRemove uid mid =>
      {| bot_state := on_raw_reaction_remove st uid mid;
         parked := parked b; resolving := resolving b |}
  | DmArrives uid content =>
      match on_message_begin st uid content with
      | (st1, inl _) =>
          {| bot_state := st1; parked := parked b; resolving := resolving b |}
      | (st1, inr t) =>
          {| bot_state := st1; parked := parked b ++ [t]; resolving := resolving b |}
      end
  | DmResumes n =>
      match parked b !! n with
      | None => b
      | Some t =>
          {| bot_state := (on_message_finish st t).1;
             parked := delete n (parked b); resolving := resolving b |}
      end
  | ResolveArrives i g mid winning_choice =>
      match cmd_resolve_begin OWNER_ID i g (st_db st) mid winning_choice with
      | inl _ => b
      | inr t =>
          {| bot_state := st; parked := parked b; resolving := resolving b ++ [t] |}
      end
  | ResolveResumes n =>
      match resolving b !! n with
      | None => b
      | Some t =>
          {| bot_state := with_db st (cmd_resolve_finish (st_db st) t).1;
             parked := parked b; resolving := delete n (resolving b) |}
      end
  end.

Definition run (OWNER_ID : option Z) (evs : list event) (b : bot) : bot :=
  foldl (step OWNER_ID) b evs.

(** ** The settlement formula as the specification words it

    [odds = clamp(total_losing / total_winning, 0.25, 1.0)] and
    [payout = amount + floor(amount * odds)], on the same doubles. *)

Definition clamp (x lo hi : spec_float) : spec_float :=
  if Py.float_lt x lo then lo else if Py.float_lt hi x then hi else x.

(** [math.floor(x)] on a [float]: toward minus infinity. *)
Definition floor_of_float (x : spec_float) : py Z :=
  match x with
  | S754_nan => raise (ValueError "cannot convert float NaN to integer")
  | S754_infinity _ => raise OverflowError
  | S754_zero _ => ret 0
  | S754_finite s m e => ret (Z.shiftl (cond_Zopp s (Zpos m)) e)
  end.

Definition spec_odds (total_winning total_losing : Z) : py spec_float :=
  let* ratio := Py.int_truediv total_losing total_winning in
  ret (clamp ratio Py.float_0_25 Py.float_1_0).

Definition spec_payout (amt total_winning total_losing : Z) : py Z :=
  let* odds := spec_odds total_winning total_losing in
  let* bonus := Py.int_mul_float amt odds in
  let* whole := floor_of_float bonus in
  ret (amt + whole).

(** ** Invariants of the ledger *)

(** Every stored balance is at least 1. *)
Definition balances_ok (d : db) : Prop :=
  map_Forall (fun _ balance => 1 <= balance) (users d).

(** The primary key of [bets]: no two rows share message and user. *)
Definition bets_unique (d : db) : Prop :=
  NoDup ((fun b => (message_id b, user_id b)) <$> bets d).

(** Every stake is at least 1 (line 222 refuses the others). *)
Definition stakes_ok (d : db) : Prop :=
  Forall (fun b => 1 <= amount b) (bets d).

(** A stored row is not flagged: [place_bet] inserts 0, and the rows that
    [mark_bets_resolved] flags are deleted in the same handler. *)
Definition unresolved_ok (d : db) : Prop :=
  Forall (fun b => resolved b = 0) (bets d).

Definition ledger_ok (d : db) : Prop :=
  balances_ok d /\ bets_unique d /\ stakes_ok d /\ unresolved_ok d.

(** The balance a query reports: the stored one, or the default. *)
Definition balance_of (d : db) (uid : string) : Z :=
  default DEFAULT_START_BALANCE (users d !! uid).

(** The amount of the highest-bet record, if there is one. *)
Definition highest_amount (d : db) : option Z := hb_amount <$> highest_bet d.

(** [None] below everything, amounts by [<=]. *)
Definition record_le (a b : option Z) : Prop :=
  match a, b with
  | None, _ => True
  | Some _, None => False
  | Some x, Some y => x <= y
  end.

(** A sequence of [place_bet] calls; a refused one changes nothing. *)
Definition place_bet_call : Type := string * string * Z * Z.

Definition place_bets (d : db) (calls : list place_bet_call) : db :=
  foldl (fun d '(mid, uid, ch, amt) =>
           match place_bet d mid uid ch amt with
           | inl _ => d
           | inr d' => d'
           end) d calls.

(** What one bettor gets out of a settlement that took the database from
    [d] to [d'], by the payout the code computes ([paid_as]) and by the
    formula of the specification ([settled_as]). *)
Definition paid_as (winning_choice total_winning total_losing : Z)
    (d d' : db) (b : bet_row) (r : result_row) : Prop :=
  res_user_id r = user_id b /\ stake r = amount b /\
  if bool_decide (choice b = winning_choice)
  then outcome r = won
       /\ payout_of (amount b) total_winning total_losing = inr (payout r)
       /\ users d' !! user_id b = Some (balance_of d (user_id b) + payout r)
  else outcome r = lost /\ payout r = 0
       /\ users d' !! user_id b = users d !! user_id b.

Definition settled_as (winning_choice total_winning total_losing : Z)
    (d d' : db) (b : bet_row) (r : result_row) : Prop :=
  res_user_id r = user_id b /\ stake r = amount b /\
  if bool_decide (choice b = winning_choice)
  then outcome r = won
       /\ spec_payout (amount b) total_winning total_losing = inr (payout r)
       /\ users d' !! user_id b = Some (balance_of d (user_id b) + payout r)
  else outcome r = lost /\ payout r = 0
       /\ users d' !! user_id b = users d !! user_id b.

(** ** Auxiliary notions of the proofs *)

(** A non-negative double that is not an infinity: a zero, or a finite
    number of at most 53 digits with its exponent bounded. *)
Definition small_float (bound : Z) (x : spec_float) : Prop :=
  match x with
  | S754_zero false => True
  | S754_finite false m e => Zpos (digits2_pos m) <= 53 /\ e <= bound
  | _ => False
  end.

(** The read and the write of a credit or a debit. *)
Definition adjust (d : db) (uid : string) (delta : Z) : db :=
  (set_user_balance (get_user_balance d uid).1 uid ((get_user_balance d uid).2 + delta)).1.

(** ** Sample data *)

Definition no_permissions : permissions :=
  {| manage_guild := false; manage_messages := false; administrator := false |}.

(** The author of message ["m"], without any permission. *)
Definition sample_author : interaction :=
  {| invoker_id := 7; guild_permissions := no_permissions |}.

Definition sample_admin : interaction :=
  {| invoker_id := 8;
     guild_permissions := {| manage_guild := false; manage_messages := false;
                             administrator := true |} |}.

Definition sample_message : message := {| msg_id := "m"; msg_author_id := 7 |}.

Definition sample_guild : guild :=
  {| bets_channel :=
       Some (fun mid => if bool_decide (mid = "m") then Some sample_message else None) |}.

Definition sample_bet (uid : string) (ch amt : Z) : bet_row :=
  {| message_id := "m"; user_id := uid; choice := ch; amount := amt; resolved := 0 |}.

(** 300 coins on choice 1, 100 on choice 2. *)
Definition sample_db : db :=
  {| users := <["a" := 5]> ∅;
     bets := [sample_bet "a" 1 30; sample_bet "b" 1 270; sample_bet "c" 2 100];
     highest_bet := None |}.

(** One bettor, nobody against, a stake one above [2 ^ 53]. *)
Definition lone_whale_db : db :=
  {| users := <["w" := 1]> ∅;
     bets := [sample_bet "w" 1 9007199254740993];
     highest_bet := None |}.

(** Only choice 1 is backed. *)
Definition one_sided_db : db :=
  {| users := <["a" := 5]> ∅;
     bets := [sample_bet "a" 1 30; sample_bet "b" 1 270];
     highest_bet := None |}.

(** The schedule that gets there: the user reacts with choice 1 and sends
    the stake 40; while that message waits at its first [await], the
    reaction with choice 2 arrives, finds no row and no pending entry, and
    registers one; then the first stake is placed. *)
Definition race_schedule : list event :=
  [ReactionAdd "u" "m" 1; DmArrives "u" (Some 40); ReactionAdd "u" "m" 2; DmResumes 0].

(** The credit of lines 479-481 for one bet asks for a balance the column
    holds. *)
Definition credit_fits (winning_choice total_winning total_losing : Z)
    (d : db) (b : bet_row) : Prop :=
  choice b = winning_choice ->
  forall p, payout_of (amount b) total_winning total_losing = inr p ->
    balance_of d (user_id b) + p <= INT64_MAX.

(** Two resolutions of one event that overlap.  Two users bet on message
    ["m"], 30 on choice 1 and 60 on choice 2; the author resolves it for
    choice 1 twice, and the second call reads the bets (line 449) while the
    first waits at an [await] before its deletion (line 492). *)
Definition bets_are_placed : list event :=
  [ReactionAdd "a" "m" 1; DmArrives "a" (Some 30); DmResumes 0;
   ReactionAdd "c" "m" 2; DmArrives "c" (Some 60); DmResumes 0].

Definition overlapping_resolves : list event :=
  [ResolveArrives sample_author sample_guild "m" 1;
   ResolveArrives sample_author sample_guild "m" 1;
   ResolveResumes 0; ResolveResumes 0].

(** ** Handlers run one at a time

    The bot when no handler is suspended while another runs: every handler,
    the direct-message one included, runs to its end. *)

Inductive command :=
  | DoBalance (target : string)
  | DoAddCoins (i : interaction) (uid : string) (amt : Z)
  | DoResolve (i : interaction) (g : guild) (mid : string) (winning_choice : Z)
  | DoReactionAdd (uid mid : string) (ch : Z)
  | DoReactionRemove (uid mid : string)
  | DoMessage (uid : string) (content : option Z).

Definition handle (OWNER_ID : option Z) (st : state) (c : command) : state :=
  match c with
  | DoBalance target => with_db st (cmd_balance (st_db st) target).1
  | DoAddCoins i uid amt => with_db st (cmd_addcoins OWNER_ID i (st_db st) uid amt).1
  | DoResolve i g mid winning_choice =>
      with_db st (cmd_resolve OWNER_ID i g (st_db st) mid winning_choice).1
  | DoReactionAdd uid mid ch => on_raw_reaction_add st uid mid ch
  | DoReactionRemove uid mid => on_raw_reaction_remove st uid mid
  | DoMessage uid content => (on_message st uid content).1
  end.

Definition handle_all (OWNER_ID : option Z) (cs : list command) (st : state) : state :=
  foldl (handle OWNER_ID) st cs.

(** The key of a bet row. *)
Definition bet_key (b : bet_row) : string * string := (message_id b, user_id b).

(** Nobody is asked for a stake on a message they already bet on. *)
Definition pending_consistent (st : state) : Prop :=
  forall uid mid ch,
    pending_stakes st !! uid = Some (mid, ch) ->
    (mid, uid) ∉ bet_key <$> bets (st_db st).

(** ** /livebets (lines 526-573)

    The board without its text: one line per bet with the user, the amount
    and the team the line names, and the two totals.  The lookup of the
    matchup text and of the display names only changes the wording. *)

Record livebets_line := {
  line_user : string;
  line_amount : Z;
  line_team : Z
}.

Inductive livebets_reply :=
  | NoBetsYet                    (* 'No bets placed yet on this message.' *)
  | Betboard (lines : list livebets_line) (total_team1 total_team2 : Z).

(** The loop of lines 551-565. *)
Fixpoint livebets_loop (bs : list bet_row) (lines : list livebets_line)
    (total_team1 total_team2 : Z) : list livebets_line * Z * Z :=
  match bs with
  | [] => (lines, total_team1, total_team2)
  | b :: rest =>
      if choice b =? 1 then
        livebets_loop rest
          (lines ++ [{| line_user := user_id b; line_amount := amount b; line_team := 1 |}])
          (total_team1 + amount b) total_team2
      else
        livebets_loop rest
          (lines ++ [{| line_user := user_id b; line_amount := amount b; line_team := 2 |}])
          total_team1 (total_team2 + amount b)
  end.

Definition cmd_livebets (d : db) (mid : string) : livebets_reply :=
  match get_bets_for_message d mid with
  | [] => NoBetsYet
  | bs => let '(lines, total_team1, total_team2) := livebets_loop bs [] 0 0 in
          Betboard lines total_team1 total_team2
  end.

(** ** /highestbet (lines 577-624), without the wording *)

Inductive highestbet_reply :=
  | NoBetsPlacedYet              (* 'No bets have been placed yet.' *)
  | HighestBetEver (uid msg_id : string) (ch amt : Z).

Definition cmd_highestbet (d : db) : highestbet_reply :=
  match highest_bet d with
  | None => NoBetsPlacedYet
  | Some row => HighestBetEver (hb_user_id row) (hb_message_id row)
                  (hb_choice row) (hb_amount row)
  end.

(** The record is at least every stored stake, and there is one as soon as a
    row is stored. *)
Definition record_dominates (d : db) : Prop :=
  match highest_bet d with
  | None => bets d = []
  | Some row => Forall (fun b => amount b <= hb_amount row) (bets d)
  end.

(* ===================================================================== *)
(** * Part II: properties                                                 *)
(* ===================================================================== *)

(** ** Binary digits and right shifts of [SpecFloat] *)

Section Digits.

Lemma digits2_pos_bounds (p : positive) :
  2 ^ (Zpos (digits2_pos p) - 1) <= Zpos p < 2 ^ Zpos (digits2_pos p).
Proof.
  induction p as [p IH | p IH |]; cbn [digits2_pos].
  - rewrite Pos2Z.inj_succ.
    replace (Z.succ (Zpos (digits2_pos p)) - 1) with (Z.succ (Zpos (digits2_pos p) - 1)) by lia.
    rewrite !Z.pow_succ_r by lia. lia.
  - rewrite Pos2Z.inj_succ.
    replace (Z.succ (Zpos (digits2_pos p)) - 1) with (Z.succ (Zpos (digits2_pos p) - 1)) by lia.
    rewrite !Z.pow_succ_r by lia. lia.
  - cbn. lia.
Qed.

Lemma Zdigits2_nonneg (m : Z) : 0 <= Zdigits2 m.
Proof. destruct m; cbn; lia. Qed.

Lemma Zdigits2_bounds (m : Z) :
  0 < m -> 2 ^ (Zdigits2 m - 1) <= m < 2 ^ Zdigits2 m.
Proof. destruct m as [|p|p]; try lia. intros _. apply digits2_pos_bounds. Qed.

Lemma Zdigits2_lt_pow (m d : Z) : 0 <= d -> 0 <= m < 2 ^ d -> Zdigits2 m <= d.
Proof.
  intros Hd [H0 Hm].
  destruct (Z.eq_dec m 0) as [-> | Hne]; [cbn; lia |].
  destruct (Z.le_gt_cases (Zdigits2 m) d) as [|Hgt]; [assumption | exfalso].
  pose proof (Zdigits2_bounds m ltac:(lia)) as [Hlo _].
  assert (2 ^ d <= 2 ^ (Zdigits2 m - 1)) by (apply Z.pow_le_mono_r; lia).
  lia.
Qed.

Lemma Zdigits2_ge_pow (m d : Z) : 2 ^ (d - 1) <= m -> 0 < m -> d <= Zdigits2 m.
Proof.
  intros Hlo Hm.
  destruct (Z.le_gt_cases d (Zdigits2 m)) as [|Hgt]; [assumption | exfalso].
  pose proof (Zdigits2_bounds m Hm) as [_ Hhi].
  assert (2 ^ Zdigits2 m <= 2 ^ (d - 1)).
  { apply Z.pow_le_mono_r; [lia |]. pose proof (Zdigits2_nonneg m). lia. }
  lia.
Qed.

Lemma Zdigits2_eq (m d : Z) : 2 ^ (d - 1) <= m < 2 ^ d -> 0 < m -> Zdigits2 m = d.
Proof.
  intros [Hlo Hhi] Hm.
  assert (0 <= d).
  { destruct (Z.le_gt_cases 0 d); [assumption |]. rewrite Z.pow_neg_r in Hhi; lia. }
  apply Z.le_antisymm; [apply Zdigits2_lt_pow | apply Zdigits2_ge_pow]; lia.
Qed.

Lemma Zdigits2_div_pow (m n : Z) :
  0 <= m -> 0 <= n -> Zdigits2 (m / 2 ^ n) = Z.max 0 (Zdigits2 m - n).
Proof.
  intros Hm Hn.
  destruct (Z.eq_dec m 0) as [-> | Hne].
  { rewrite Z.div_0_l by (apply Z.pow_nonzero; lia). cbn. lia. }
  pose proof (Zdigits2_bounds m ltac:(lia)) as [Hlo Hhi].
  pose proof (Zdigits2_nonneg m) as Hd.
  assert (Hp : 0 < 2 ^ n) by (apply Z.pow_pos_nonneg; lia).
  destruct (Z.le_gt_cases (Zdigits2 m) n) as [Hle | Hgt].
  - rewrite Z.div_small; [cbn; lia |].
    split; [lia |]. eapply Z.lt_le_trans; [exact Hhi |]. apply Z.pow_le_mono_r; lia.
  - rewrite Z.max_r by lia.
    apply Zdigits2_eq.
    + split.
      * apply Z.div_le_lower_bound; [lia |].
        rewrite <- Z.pow_add_r by lia.
        replace (n + (Zdigits2 m - n - 1)) with (Zdigits2 m - 1) by lia. exact Hlo.
      * apply Z.div_lt_upper_bound; [lia |].
        rewrite <- Z.pow_add_r by lia.
        replace (n + (Zdigits2 m - n)) with (Zdigits2 m) by lia. exact Hhi.
    + apply Z.div_str_pos. split; [lia |].
      eapply Z.le_trans; [| exact Hlo]. apply Z.pow_le_mono_r; lia.
Qed.

Lemma Zdigits2_succ_le (m : Z) : 0 <= m -> Zdigits2 (m + 1) <= Zdigits2 m + 1.
Proof.
  intros Hm. pose proof (Zdigits2_nonneg m) as Hd.
  apply Zdigits2_lt_pow; [lia |]. split; [lia |].
  rewrite Z.pow_add_r, Z.pow_1_r by lia.
  destruct (Z.eq_dec m 0) as [-> | Hne]; [cbn; lia |].
  pose proof (Zdigits2_bounds m ltac:(lia)). lia.
Qed.

Lemma Zdigits2_mono (m n : Z) : 0 <= m <= n -> Zdigits2 m <= Zdigits2 n.
Proof.
  intros [Hm Hmn].
  destruct (Z.eq_dec n 0) as [-> | Hne].
  { replace m with 0 by lia. lia. }
  apply Zdigits2_lt_pow; [apply Zdigits2_nonneg |].
  pose proof (Zdigits2_bounds n ltac:(lia)). lia.
Qed.

Lemma Zdigits2_mul_le (m n : Z) :
  0 < m -> 0 < n -> Zdigits2 (m * n) <= Zdigits2 m + Zdigits2 n.
Proof.
  intros Hm Hn.
  pose proof (Zdigits2_bounds m Hm) as [_ H1].
  pose proof (Zdigits2_bounds n Hn) as [_ H2].
  pose proof (Zdigits2_nonneg m). pose proof (Zdigits2_nonneg n).
  apply Zdigits2_lt_pow; [lia |].
  rewrite Z.pow_add_r by lia. nia.
Qed.

End Digits.

Section Shift.

Lemma pow2_xO (p : positive) : 2 ^ Zpos p~0 = 2 ^ Zpos p * 2 ^ Zpos p.
Proof. rewrite Pos2Z.inj_xO, <- Z.pow_add_r by lia. f_equal. lia. Qed.

Lemma pow2_xI (p : positive) : 2 ^ Zpos p~1 = 2 * (2 ^ Zpos p * 2 ^ Zpos p).
Proof.
  rewrite Pos2Z.inj_xI, <- Z.pow_add_r by lia.
  rewrite <- Z.pow_succ_r by lia. f_equal. lia.
Qed.

Lemma shr_1_m (r : shr_record) : 0 <= shr_m r -> shr_m (shr_1 r) = shr_m r / 2.
Proof.
  destruct r as [m rb sb]; cbn [shr_m].
  destruct m as [|p|p]; [reflexivity | | lia]. intros _.
  destruct p as [p|p|]; cbn [shr_1 shr_m].
  - rewrite Pos2Z.inj_xI. apply Z.div_unique with (r := 1); lia.
  - rewrite Pos2Z.inj_xO. apply Z.div_unique with (r := 0); lia.
  - reflexivity.
Qed.

Lemma iter_shr_1_m (p : positive) (r : shr_record) :
  0 <= shr_m r -> shr_m (SpecFloat.iter_pos shr_1 p r) = shr_m r / 2 ^ Zpos p.
Proof.
  revert r. induction p as [p IH | p IH |]; intros r Hr; cbn [SpecFloat.iter_pos].
  - assert (H1 : 0 <= shr_m (shr_1 r)).
    { rewrite shr_1_m by assumption. apply Z.div_pos; lia. }
    assert (H2 : 0 <= shr_m (SpecFloat.iter_pos shr_1 p (shr_1 r))).
    { rewrite IH by assumption. apply Z.div_pos; lia. }
    rewrite IH, IH, shr_1_m by assumption.
    rewrite !Z.div_div by lia.
    f_equal. symmetry. apply pow2_xI.
  - assert (H2 : 0 <= shr_m (SpecFloat.iter_pos shr_1 p r)).
    { rewrite IH by assumption. apply Z.div_pos; lia. }
    rewrite IH, IH by assumption.
    rewrite !Z.div_div by lia.
    f_equal. symmetry. apply pow2_xO.
  - rewrite shr_1_m by assumption. reflexivity.
Qed.

Lemma shr_1_exact (m : Z) :
  0 <= m -> shr_1 (Build_shr_record (2 * m) false false) = Build_shr_record m false false.
Proof. destruct m as [|p|p]; try lia; reflexivity. Qed.

Lemma iter_shr_1_exact (p : positive) (m : Z) :
  0 <= m ->
  SpecFloat.iter_pos shr_1 p (Build_shr_record (m * 2 ^ Zpos p) false false)
  = Build_shr_record m false false.
Proof.
  revert m. induction p as [p IH | p IH |]; intros m Hm; cbn [SpecFloat.iter_pos].
  - assert (0 < 2 ^ Zpos p) by (apply Z.pow_pos_nonneg; lia).
    replace (m * 2 ^ Zpos p~1) with (2 * ((m * 2 ^ Zpos p) * 2 ^ Zpos p))
      by (rewrite pow2_xI; lia).
    rewrite shr_1_exact by nia. rewrite IH by nia. apply IH; assumption.
  - assert (0 < 2 ^ Zpos p) by (apply Z.pow_pos_nonneg; lia).
    replace (m * 2 ^ Zpos p~0) with ((m * 2 ^ Zpos p) * 2 ^ Zpos p)
      by (rewrite pow2_xO; lia).
    rewrite IH by nia. apply IH; assumption.
  - replace (m * 2 ^ 1) with (2 * m) by lia. apply shr_1_exact; assumption.
Qed.

(** The first component of [shr_fexp]: the mantissa divided, the exponent
    raised to the canonical one. *)
Lemma shr_fexp_spec (m e : Z) (l : location) :
  0 <= m ->
  snd (shr_fexp Py.prec Py.emax m e l) = Z.max e (fexp Py.prec Py.emax (Zdigits2 m + e)) /\
  shr_m (fst (shr_fexp Py.prec Py.emax m e l)) = m / 2 ^ (snd (shr_fexp Py.prec Py.emax m e l) - e).
Proof.
  intros Hm. unfold shr_fexp, shr.
  assert (Hl : shr_m (shr_record_of_loc m l) = m) by (destruct l as [|[]]; reflexivity).
  destruct (fexp Py.prec Py.emax (Zdigits2 m + e) - e) as [|p|p] eqn:Hn; cbn [fst snd].
  - rewrite Z.max_l by lia. rewrite Z.sub_diag, Z.pow_0_r, Z.div_1_r. auto.
  - rewrite Z.max_r by lia. split; [lia |].
    rewrite iter_shr_1_m by lia. rewrite Hl. f_equal. f_equal. lia.
  - rewrite Z.max_l by lia. rewrite Z.sub_diag, Z.pow_0_r, Z.div_1_r. auto.
Qed.

Lemma round_nearest_even_bounds (m : Z) (l : location) :
  m <= round_nearest_even m l <= m + 1.
Proof. destruct l as [|[]]; cbn; try lia. destruct (Z.even m); lia. Qed.

End Shift.

Section Rounding.

Lemma fexp_eq (x : Z) : fexp Py.prec Py.emax x = Z.max (x - 53) (-1074).
Proof. reflexivity. Qed.

Lemma Zdigits2_mul_pow (m n : Z) :
  0 < m -> 0 <= n -> Zdigits2 (m * 2 ^ n) = Zdigits2 m + n.
Proof.
  intros Hm Hn. pose proof (Zdigits2_bounds m Hm) as [Hlo Hhi].
  pose proof (Zdigits2_nonneg m) as Hd.
  assert (Hd1 : 1 <= Zdigits2 m).
  { destruct (Z.le_gt_cases 1 (Zdigits2 m)); [assumption |].
    replace (Zdigits2 m) with 0 in Hhi by lia. cbn in Hhi. lia. }
  assert (Hp : 0 < 2 ^ n) by (apply Z.pow_pos_nonneg; lia).
  apply Zdigits2_eq; [| nia].
  replace (Zdigits2 m + n - 1) with ((Zdigits2 m - 1) + n) by lia.
  rewrite !Z.pow_add_r by lia. nia.
Qed.

Lemma iter_xO_pow (p d : positive) : Zpos (Pos.iter xO p d) = Zpos p * 2 ^ Zpos d.
Proof.
  induction d as [|d IH] using Pos.peano_ind.
  - cbn. lia.
  - rewrite Pos.iter_succ, Pos2Z.inj_xO, IH, Pos2Z.inj_succ, Z.pow_succ_r by lia. lia.
Qed.

(** What [binary_round_aux] can return on a non-negative mantissa. *)
Lemma binary_round_aux_cases (s : bool) (m e : Z) (l : location) :
  0 <= m ->
  let top := Z.max e (Z.max (Zdigits2 m + e - 52) (-1074)) in
  match binary_round_aux Py.prec Py.emax s m e l with
  | S754_zero s' => s' = s
  | S754_finite s' m' e' =>
      s' = s /\ Zpos (digits2_pos m') <= 53 /\ e' <= top /\ e' <= 971
  | S754_infinity s' => s' = s /\ 971 < top
  | S754_nan => False
  end.
Proof.
  intros Hm top. unfold binary_round_aux.
  pose proof (shr_fexp_spec m e l Hm) as [He1 Hm1].
  destruct (shr_fexp Py.prec Py.emax m e l) as [r1 e1]. cbn [fst snd] in He1, Hm1.
  set (m2 := round_nearest_even (shr_m r1) (loc_of_shr_record r1)).
  assert (Hm1' : 0 <= shr_m r1).
  { rewrite Hm1. apply Z.div_pos; [lia |]. apply Z.pow_pos_nonneg; lia. }
  pose proof (round_nearest_even_bounds (shr_m r1) (loc_of_shr_record r1)) as Hrne.
  fold m2 in Hrne.
  assert (Hm2 : 0 <= m2) by lia.
  pose proof (shr_fexp_spec m2 e1 loc_Exact Hm2) as [He2 Hm3].
  destruct (shr_fexp Py.prec Py.emax m2 e1 loc_Exact) as [r2 e2]. cbn [fst snd] in He2, Hm3.
  rewrite fexp_eq in He1, He2.
  assert (Hd1 : Zdigits2 (shr_m r1) = Z.max 0 (Zdigits2 m - (e1 - e))).
  { rewrite Hm1. apply Zdigits2_div_pow; lia. }
  assert (Hd2 : Zdigits2 m2 <= Zdigits2 (shr_m r1) + 1).
  { etransitivity; [apply (Zdigits2_mono m2 (shr_m r1 + 1)); lia |].
    apply Zdigits2_succ_le; assumption. }
  assert (Hd3 : Zdigits2 (shr_m r2) = Z.max 0 (Zdigits2 m2 - (e2 - e1))).
  { rewrite Hm3. apply Zdigits2_div_pow; lia. }
  assert (Htop : e2 <= top) by (subst top; lia).
  destruct (shr_m r2) as [|m3|m3] eqn:Hr2.
  - reflexivity.
  - destruct (Z.leb_spec e2 (Py.emax - Py.prec)) as [Hle | Hgt].
    + split; [reflexivity |]. cbn [Zdigits2] in Hd3. unfold Py.emax, Py.prec in Hle.
      repeat split; lia.
    + unfold Py.emax, Py.prec in Hgt. split; [reflexivity | lia].
  - assert (0 <= Zneg m3); [| lia].
    rewrite Hm3. apply Z.div_pos; [lia |]. apply Z.pow_pos_nonneg; lia.
Qed.

(** A canonical mantissa passes through unchanged. *)
Lemma binary_round_aux_canonical (s : bool) (m : positive) (e : Z) :
  fexp Py.prec Py.emax (Zpos (digits2_pos m) + e) = e -> e <= 971 ->
  binary_round_aux Py.prec Py.emax s (Zpos m) e loc_Exact = S754_finite s m e.
Proof.
  intros Hc He. unfold binary_round_aux, shr_fexp. cbn [Zdigits2].
  rewrite Hc, Z.sub_diag. cbn [shr shr_record_of_loc shr_m loc_of_shr_record round_nearest_even Zdigits2].
  rewrite Hc, Z.sub_diag. cbn [shr shr_record_of_loc shr_m].
  destruct (Z.leb_spec e (Py.emax - Py.prec)) as [|Hgt]; [reflexivity |].
  unfold Py.emax, Py.prec in Hgt. lia.
Qed.

(** Trailing zeros shifted out leave the mantissa exact. *)
Lemma binary_round_aux_exact (s : bool) (m n : positive) (e : Z) :
  fexp Py.prec Py.emax (Zpos (digits2_pos m) + (e + Zpos n)) = e + Zpos n ->
  e + Zpos n <= 971 ->
  binary_round_aux Py.prec Py.emax s (Zpos m * 2 ^ Zpos n) e loc_Exact
  = S754_finite s m (e + Zpos n).
Proof.
  intros Hc He.
  assert (Hd : Zdigits2 (Zpos m * 2 ^ Zpos n) = Zpos (digits2_pos m) + Zpos n).
  { rewrite Zdigits2_mul_pow by lia. reflexivity. }
  unfold binary_round_aux, shr_fexp. rewrite Hd.
  replace (Zpos (digits2_pos m) + Zpos n + e) with (Zpos (digits2_pos m) + (e + Zpos n)) by lia.
  rewrite Hc. replace (e + Zpos n - e) with (Zpos n) by lia.
  cbn [shr shr_record_of_loc]. rewrite iter_shr_1_exact by lia.
  cbn [shr_m loc_of_shr_record round_nearest_even Zdigits2].
  rewrite Hc, Z.sub_diag. cbn [shr shr_record_of_loc shr_m].
  destruct (Z.leb_spec (e + Zpos n) (Py.emax - Py.prec)) as [|Hgt]; [reflexivity |].
  unfold Py.emax, Py.prec in Hgt. lia.
Qed.

End Rounding.

(** ** The doubles of the payout *)

Section Doubles.

Lemma small_float_weaken (b1 b2 : Z) (x : spec_float) :
  b1 <= b2 -> small_float b1 x -> small_float b2 x.
Proof. intros Hb. destruct x as [[]|s| |[] m e]; cbn; try tauto. lia. Qed.

Lemma float_1_0_eq : Py.float_1_0 = S754_finite false 4503599627370496 (-52).
Proof. reflexivity. Qed.

Lemma float_0_25_eq : Py.float_0_25 = S754_finite false 4503599627370496 (-54).
Proof. reflexivity. Qed.

(** The doubles CPython prints for three operations of the payout:
    [(100/300).hex()] is [0x1.5555555555555p-2],
    [((2**64 + 2**11 + 1) / 3).hex()] is [0x1.5555555555556p+62] (the
    quotient is rounded once, from the integers), and
    [float(2**53 + 1)] is [2.0 ** 53]. *)
Lemma python_doubles :
  Py.int_truediv 100 300 = inr (S754_finite false 0x15555555555555 (-2 - 52)) /\
  Py.int_truediv (2 ^ 64 + 2 ^ 11 + 1) 3 = inr (S754_finite false 0x15555555555556 (62 - 52)) /\
  Py.float_of_int (2 ^ 53 + 1) = inr (S754_finite false (2 ^ 52) 1).
Proof. repeat split; vm_compute; reflexivity. Qed.

Lemma round_small (m e bound : Z) (l : location) :
  0 <= m -> e <= bound -> Zdigits2 m + e - 52 <= bound -> -1074 <= bound -> bound <= 971 ->
  small_float bound (binary_round_aux Py.prec Py.emax false m e l).
Proof.
  intros Hm He Hd Hlo Hhi.
  pose proof (binary_round_aux_cases false m e l Hm) as H. cbv zeta in H.
  destruct (binary_round_aux Py.prec Py.emax false m e l) as [s|s| |s m' e'];
    cbn; try subst s; try tauto.
  - lia.
  - destruct H as (-> & H1 & H2 & H3). lia.
Qed.

Lemma shl_align_spec (p : positive) (e e' : Z) :
  let '(mz, ez) := shl_align p e e' in
  ez <= e /\ Zdigits2 (Zpos mz) + ez = Zdigits2 (Zpos p) + e /\
  Zpos mz = Zpos p * 2 ^ (e - ez).
Proof.
  unfold shl_align. destruct (e' - e) as [|d|d] eqn:Hd.
  - rewrite Z.sub_diag. lia.
  - rewrite Z.sub_diag. lia.
  - assert (He : e - e' = Zpos d) by lia. rewrite He.
    rewrite iter_xO_pow. rewrite Zdigits2_mul_pow by lia. lia.
Qed.

(** [float(a)] succeeds on every positive integer below [2 ^ 1021]. *)
Lemma float_of_int_small (a : Z) :
  0 < a < 2 ^ 1021 -> exists x, Py.float_of_int a = inr x /\ small_float 969 x.
Proof.
  intros [Ha Hb]. destruct a as [|p|p]; try lia.
  unfold Py.float_of_int, binary_normalize, binary_round.
  pose proof (shl_align_spec p 0 (fexp Py.prec Py.emax (Zpos (digits2_pos p) + 0))) as Hs.
  destruct (shl_align p 0 _) as [mz ez]. destruct Hs as (Hez & Hdz & _).
  assert (HD : Zdigits2 (Zpos p) <= 1021) by (apply Zdigits2_lt_pow; lia).
  assert (Hsm : small_float 969 (binary_round_aux Py.prec Py.emax false (Zpos mz) ez loc_Exact))
    by (apply round_small; lia).
  destruct (binary_round_aux Py.prec Py.emax false (Zpos mz) ez loc_Exact) as [s|s| |s m' e'];
    cbn in Hsm; try tauto; eauto.
Qed.

(** [a / b] succeeds on positive integers when [a] is below [2 ^ 1023]. *)
Lemma int_truediv_small (a b : Z) :
  0 < a < 2 ^ 1023 -> 0 < b ->
  exists x, Py.int_truediv a b = inr x /\ small_float 971 x.
Proof.
  intros [Ha Hb] Hpos. destruct a as [|pa|pa]; try lia. destruct b as [|pb|pb]; try lia.
  unfold Py.int_truediv, SFdiv, SFdiv_core_binary. cbn [xorb].
  rewrite !Z.add_0_r, Z.sub_diag, Z.sub_0_l.
  set (e' := Z.min (fexp Py.prec Py.emax (Zdigits2 (Zpos pa) - Zdigits2 (Zpos pb))) 0).
  set (m' := match - e' with Zpos _ => Z.shiftl (Zpos pa) (- e') | 0 => Zpos pa | Zneg _ => 0 end).
  assert (He' : e' <= 0) by (subst e'; lia).
  assert (Hm' : m' = Zpos pa * 2 ^ (- e')).
  { subst m'. destruct (- e') as [|s|s] eqn:Hs; try lia.
    rewrite Z.shiftl_mul_pow2 by lia. reflexivity. }
  pose proof (Z_div_mod m' (Zpos pb) ltac:(lia)) as Hdiv.
  destruct (Z.div_eucl m' (Zpos pb)) as [q r]. destruct Hdiv as [Hq Hr].
  assert (Hp2 : 0 < 2 ^ (- e')) by (apply Z.pow_pos_nonneg; lia).
  assert (Hq0 : 0 <= q) by nia.
  assert (Hqm : q <= m') by nia.
  assert (HD : Zdigits2 (Zpos pa) <= 1023) by (apply Zdigits2_lt_pow; lia).
  assert (Hdq : Zdigits2 q <= Zdigits2 (Zpos pa) - e').
  { etransitivity; [apply (Zdigits2_mono q m'); lia |].
    rewrite Hm', Zdigits2_mul_pow by lia. lia. }
  assert (Hsm : small_float 971
            (binary_round_aux Py.prec Py.emax false q e' (new_location (Zpos pb) r)))
    by (apply round_small; lia).
  destruct (binary_round_aux Py.prec Py.emax false q e' (new_location (Zpos pb) r))
    as [s|s| |s m'' e'']; cbn in Hsm; try tauto; eauto.
Qed.

(** Comparison of two positive finite doubles: exponents first, then
    mantissas. *)
Lemma float_lt_finite (m1 m2 : positive) (e1 e2 : Z) :
  Py.float_lt (S754_finite false m1 e1) (S754_finite false m2 e2)
  = (e1 <? e2) || ((e1 =? e2) && (m1 <? m2)%positive).
Proof.
  unfold Py.float_lt, SFltb, SFcompare.
  change (Pos.compare_cont Eq m1 m2) with (m1 ?= m2)%positive.
  unfold Pos.ltb.
  destruct (Z.compare_spec e1 e2) as [He | He | He];
    destruct (Z.ltb_spec e1 e2); destruct (Z.eqb_spec e1 e2); try lia;
    cbn [orb andb]; try reflexivity;
    destruct (m1 ?= m2)%positive; reflexivity.
Qed.

Ltac decide_atoms :=
  repeat match goal with
    | |- context [Z.ltb ?a ?b] =>
        first [ rewrite (proj2 (Z.ltb_lt a b)) by lia
              | rewrite (proj2 (Z.ltb_ge a b)) by lia ]
    | |- context [Z.eqb ?a ?b] =>
        first [ rewrite (proj2 (Z.eqb_eq a b)) by lia
              | rewrite (proj2 (Z.eqb_neq a b)) by lia ]
    | |- context [Pos.ltb ?a ?b] =>
        first [ rewrite (proj2 (Pos.ltb_lt a b)) by lia
              | rewrite (proj2 (Pos.ltb_ge a b)) by lia ]
    end.

Ltac compare_doubles :=
  repeat (rewrite ?float_lt_finite; decide_atoms; cbn [orb andb]).

(** Python's [max(0.25, min(1.0, r))] is the clamp of [r], and lands
    between the two literals. *)
Lemma odds_clamp (r : spec_float) :
  small_float 971 r ->
  let odds := Py.max2 Py.float_0_25 (Py.min2 Py.float_1_0 r) in
  odds = clamp r Py.float_0_25 Py.float_1_0 /\
  exists m e, odds = S754_finite false m e /\ Zpos (digits2_pos m) <= 53 /\ e <= -52.
Proof.
  intros Hr odds. subst odds.
  destruct r as [[]|s| |[] m e]; cbn in Hr; try tauto.
  - split; [reflexivity |]. exists 4503599627370496%positive, (-54).
    split; [reflexivity |]. cbn. lia.
  - destruct Hr as [Hd _].
    assert (Hc : Zpos (digits2_pos 4503599627370496) <= 53) by (cbn; lia).
    unfold Py.max2, Py.min2, clamp.
    rewrite float_1_0_eq, float_0_25_eq.
    revert Hc. generalize 4503599627370496%positive. intros c Hc.
    assert (He : e < -54 \/ e = -54 \/ e = -53 \/ e = -52 \/ -52 < e) by lia.
    assert (Hm : (m < c)%positive \/ m = c \/ (c < m)%positive) by lia.
    destruct He as [He | [He | [He | [He | He]]]];
      destruct Hm as [Hm | [Hm | Hm]]; subst; compare_doubles;
      (split; [reflexivity | eexists _, _; split; [reflexivity | lia]]).
Qed.

(** A stake times odds of at most [1.0] is again a non-negative double. *)
Lemma float_mul_small (x y : spec_float) :
  small_float 969 x ->
  (exists m e, y = S754_finite false m e /\ Zpos (digits2_pos m) <= 53 /\ e <= -52) ->
  small_float 971 (Py.float_mul x y).
Proof.
  intros Hx (my & ey & -> & Hdy & Hey).
  destruct x as [[]|s| |[] mx ex]; cbn in Hx; try tauto.
  destruct Hx as [Hdx Hex].
  unfold Py.float_mul, SFmul. cbn [xorb].
  pose proof (Zdigits2_mul_le (Zpos mx) (Zpos my) ltac:(lia) ltac:(lia)) as Hd.
  rewrite <- Pos2Z.inj_mul in Hd. cbn [Zdigits2] in Hd.
  apply round_small; cbn [Zdigits2]; lia.
Qed.

(** On a non-negative double [int] truncates as [math.floor] does. *)
Lemma int_of_float_small (bound : Z) (x : spec_float) :
  small_float bound x ->
  exists w, Py.int_of_float x = inr w /\ floor_of_float x = inr w /\ 0 <= w.
Proof.
  destruct x as [[]|s| |[] m e]; cbn; try tauto; intros _.
  - exists 0. repeat split; lia.
  - exists (Z.shiftl (Zpos m) e). repeat split. apply Z.shiftl_nonneg. lia.
Qed.

(** With both sides staked, the payout of the code is the payout of the
    specification, and it is returned. *)
Lemma payout_of_spec (amt total_winning total_losing : Z) :
  0 < total_winning -> 0 < total_losing < 2 ^ 1023 -> 0 < amt < 2 ^ 1021 ->
  exists p, payout_of amt total_winning total_losing = inr p /\
            spec_payout amt total_winning total_losing = inr p /\
            amt <= p.
Proof.
  intros HW HL Ha.
  destruct (int_truediv_small total_losing total_winning HL HW) as (r & Hr & Hsr).
  destruct (odds_clamp r Hsr) as [Hclamp Hodds]. cbv zeta in Hclamp, Hodds.
  destruct (float_of_int_small amt Ha) as (fa & Hfa & Hsa).
  pose proof (float_mul_small fa _ Hsa Hodds) as Hprod.
  destruct (int_of_float_small _ _ Hprod) as (w & Hw1 & Hw2 & Hw0).
  exists (amt + w). unfold payout_of, spec_payout, odds_of, spec_odds, Py.int_mul_float.
  destruct (Z.eqb_spec total_winning 0); [lia |].
  destruct (Z.eqb_spec total_losing 0); [lia |].
  cbn [orb]. rewrite Hr. cbn [bind ret]. rewrite <- Hclamp.
  rewrite Hfa. cbn [bind ret]. rewrite Hw1, Hw2. cbn [bind ret].
  repeat split; lia.
Qed.

(** *** Stakes a double holds exactly *)

Lemma float_of_int_exact (a : Z) :
  0 < a < 2 ^ 53 ->
  exists m e, Py.float_of_int a = inr (S754_finite false m e) /\
              fexp Py.prec Py.emax (Zpos (digits2_pos m) + e) = e /\
              -52 <= e <= 0 /\ Zpos m = a * 2 ^ (- e).
Proof.
  intros [Ha Hb]. destruct a as [|p|p]; try lia.
  unfold Py.float_of_int, binary_normalize, binary_round.
  pose proof (shl_align_spec p 0 (fexp Py.prec Py.emax (Zpos (digits2_pos p) + 0))) as Hs.
  assert (HD : Zdigits2 (Zpos p) <= 53) by (apply Zdigits2_lt_pow; lia).
  pose proof (Zdigits2_bounds (Zpos p) ltac:(lia)) as [Hlo _].
  assert (HD1 : 1 <= Zdigits2 (Zpos p)) by (cbn; lia).
  cbn [Zdigits2] in HD, HD1.
  assert (Hez : forall mz ez, shl_align p 0 (fexp Py.prec Py.emax (Zpos (digits2_pos p) + 0)) = (mz, ez) ->
                ez = Zpos (digits2_pos p) - 53).
  { unfold shl_align. rewrite fexp_eq. intros mz ez.
    destruct (Z.max (Zpos (digits2_pos p) + 0 - 53) (-1074) - 0) as [|d|d] eqn:Hd;
      intros [= <- <-]; lia. }
  destruct (shl_align p 0 _) as [mz ez]. specialize (Hez mz ez eq_refl).
  destruct Hs as (_ & Hdz & Hval). cbn [Zdigits2] in Hdz.
  assert (Hcanon : fexp Py.prec Py.emax (Zpos (digits2_pos mz) + ez) = ez)
    by (rewrite fexp_eq; lia).
  rewrite binary_round_aux_canonical by (assumption || lia).
  exists mz, ez. repeat split; try assumption; lia.
Qed.

(** Multiplying a normal double by [1.0] returns it. *)
Lemma float_mul_1_0 (s : bool) (m : positive) (e : Z) :
  fexp Py.prec Py.emax (Zpos (digits2_pos m) + e) = e -> e <= 971 ->
  Py.float_mul (S754_finite s m e) Py.float_1_0 = S754_finite s m e.
Proof.
  intros Hc He. rewrite float_1_0_eq. unfold Py.float_mul, SFmul.
  rewrite xorb_false_r, Pos2Z.inj_mul.
  change (Zpos 4503599627370496) with (2 ^ Zpos 52).
  rewrite binary_round_aux_exact.
  - f_equal. lia.
  - replace (e + -52 + Zpos 52) with e by lia. exact Hc.
  - lia.
Qed.

(** [int(amount * 1.0)] gives the stake back as long as a double holds it. *)
Lemma bonus_at_even_odds (amt : Z) :
  0 < amt <= 2 ^ 53 ->
  (let* bonus := Py.int_mul_float amt Py.float_1_0 in Py.int_of_float bonus) = inr amt.
Proof.
  intros [Ha Hb].
  destruct (Z.eq_dec amt (2 ^ 53)) as [-> | Hne]; [reflexivity |].
  destruct (float_of_int_exact amt ltac:(lia)) as (m & e & Hfa & Hc & He & Hm).
  unfold Py.int_mul_float. rewrite Hfa. cbn [bind ret].
  rewrite float_mul_1_0 by (assumption || lia).
  cbn [Py.int_of_float cond_Zopp]. f_equal.
  rewrite Hm. replace e with (- (- e)) at 2 by lia.
  rewrite Z.shiftl_opp_r, Z.shiftr_div_pow2 by lia.
  apply Z.div_mul. apply Z.pow_nonzero; lia.
Qed.

End Doubles.

(** ** The ledger helpers *)

Section Ledger.

Lemma balance_of_get (d : db) (uid : string) :
  (get_user_balance d uid).2 = balance_of d uid.
Proof.
  unfold get_user_balance, balance_of.
  destruct (users d !! uid); reflexivity.
Qed.

Lemma balance_of_ok (d : db) (uid : string) :
  balances_ok d -> 1 <= balance_of d uid.
Proof.
  intros Hok. unfold balance_of.
  destruct (users d !! uid) as [b|] eqn:Hb; cbn.
  - exact (Hok uid b Hb).
  - unfold DEFAULT_START_BALANCE. lia.
Qed.

Lemma set_user_balance_users (d : db) (uid : string) (b : Z) :
  users (set_user_balance d uid b).1 = <[uid := Z.max 1 b]> (users d).
Proof. reflexivity. Qed.

Lemma set_user_balance_bets (d : db) (uid : string) (b : Z) :
  bets (set_user_balance d uid b).1 = bets d /\
  highest_bet (set_user_balance d uid b).1 = highest_bet d.
Proof. split; reflexivity. Qed.

Lemma set_user_balance_ok (d : db) (uid : string) (b : Z) :
  balances_ok d -> balances_ok (set_user_balance d uid b).1.
Proof.
  intros Hok. unfold balances_ok. rewrite set_user_balance_users.
  apply map_Forall_insert_2; [lia | exact Hok].
Qed.

Lemma get_user_balance_users (d : db) (uid : string) :
  users (get_user_balance d uid).1 = <[uid := balance_of d uid]> (users d).
Proof.
  unfold get_user_balance, balance_of.
  destruct (users d !! uid) as [b|] eqn:Hb; cbn.
  - symmetry. apply insert_id. exact Hb.
  - reflexivity.
Qed.

Lemma get_user_balance_bets (d : db) (uid : string) :
  bets (get_user_balance d uid).1 = bets d /\
  highest_bet (get_user_balance d uid).1 = highest_bet d.
Proof. unfold get_user_balance. destruct (users d !! uid); split; reflexivity. Qed.

Lemma get_user_balance_ok (d : db) (uid : string) :
  balances_ok d -> balances_ok (get_user_balance d uid).1.
Proof.
  intros Hok. unfold balances_ok. rewrite get_user_balance_users.
  apply map_Forall_insert_2; [apply balance_of_ok; exact Hok | exact Hok].
Qed.

Lemma adjust_users (d : db) (uid : string) (delta : Z) :
  users (adjust d uid delta) = <[uid := Z.max 1 (balance_of d uid + delta)]> (users d).
Proof.
  unfold adjust. rewrite set_user_balance_users, get_user_balance_users, balance_of_get.
  apply insert_insert_eq.
Qed.

Lemma adjust_bets (d : db) (uid : string) (delta : Z) :
  bets (adjust d uid delta) = bets d /\ highest_bet (adjust d uid delta) = highest_bet d.
Proof.
  unfold adjust.
  destruct (set_user_balance_bets (get_user_balance d uid).1 uid
              ((get_user_balance d uid).2 + delta)) as [-> ->].
  apply get_user_balance_bets.
Qed.

Lemma adjust_ok (d : db) (uid : string) (delta : Z) :
  balances_ok d -> balances_ok (adjust d uid delta).
Proof. intros Hok. apply set_user_balance_ok, get_user_balance_ok, Hok. Qed.

End Ledger.

(** ** The payout loop *)

Section PayoutLoop.

Variables winning_choice total_winning total_losing : Z.

Lemma pay_bets_won (b : bet_row) (rest : list bet_row) (d : db)
    (acc : list result_row) (p : Z) :
  choice b = winning_choice ->
  payout_of (amount b) total_winning total_losing = inr p ->
  pay_bets winning_choice total_winning total_losing (b :: rest) d acc
  = pay_bets winning_choice total_winning total_losing rest
      (adjust d (user_id b) p) (acc ++ [won_row b p]).
Proof.
  intros Hc Hp. cbn [pay_bets]. rewrite bool_decide_eq_true_2 by exact Hc.
  rewrite Hp. unfold adjust.
  destruct (get_user_balance d (user_id b)) as [d1 cur]. reflexivity.
Qed.

Lemma pay_bets_raises (b : bet_row) (rest : list bet_row) (d : db)
    (acc : list result_row) (e : exn) :
  choice b = winning_choice ->
  payout_of (amount b) total_winning total_losing = inl e ->
  pay_bets winning_choice total_winning total_losing (b :: rest) d acc = (d, inl e).
Proof.
  intros Hc Hp. cbn [pay_bets]. rewrite bool_decide_eq_true_2 by exact Hc.
  rewrite Hp. reflexivity.
Qed.

Lemma pay_bets_lost (b : bet_row) (rest : list bet_row) (d : db)
    (acc : list result_row) :
  choice b <> winning_choice ->
  pay_bets winning_choice total_winning total_losing (b :: rest) d acc
  = pay_bets winning_choice total_winning total_losing rest d (acc ++ [lost_row b]).
Proof.
  intros Hc. cbn [pay_bets]. rewrite bool_decide_eq_false_2 by exact Hc. reflexivity.
Qed.

(** Whatever the loop does, it writes balances only, and never one
    below 1. *)
Lemma pay_bets_frame (bs : list bet_row) :
  forall (d : db) (acc : list result_row),
    let d' := (pay_bets winning_choice total_winning total_losing bs d acc).1 in
    bets d' = bets d /\ highest_bet d' = highest_bet d /\
    (balances_ok d -> balances_ok d').
Proof.
  induction bs as [|b rest IH]; intros d acc; cbn zeta.
  - cbn. auto.
  - destruct (decide (choice b = winning_choice)) as [Hc | Hc].
    + destruct (payout_of (amount b) total_winning total_losing) as [e | p] eqn:Hp.
      * rewrite (pay_bets_raises _ _ _ _ e Hc Hp). cbn. auto.
      * rewrite (pay_bets_won _ _ _ _ p Hc Hp).
        destruct (IH (adjust d (user_id b) p) (acc ++ [won_row b p])) as (H1 & H2 & H3).
        destruct (adjust_bets d (user_id b) p) as [Hb Hh].
        rewrite H1, H2, Hb, Hh. repeat split.
        intros Hok. apply H3, adjust_ok, Hok.
    + rewrite (pay_bets_lost _ _ _ _ Hc). apply IH.
Qed.

Lemma paid_as_frame (d1 d2 d' : db) (b : bet_row) (r : result_row) :
  users d1 !! user_id b = users d2 !! user_id b ->
  paid_as winning_choice total_winning total_losing d1 d' b r ->
  paid_as winning_choice total_winning total_losing d2 d' b r.
Proof.
  intros Hu. unfold paid_as, balance_of. rewrite Hu. tauto.
Qed.

Lemma paid_as_frame_all (d1 d2 d' : db) (bs : list bet_row) (rs : list result_row) :
  Forall (fun b => users d1 !! user_id b = users d2 !! user_id b) bs ->
  Forall2 (paid_as winning_choice total_winning total_losing d1 d') bs rs ->
  Forall2 (paid_as winning_choice total_winning total_losing d2 d') bs rs.
Proof.
  intros Hall H2. induction H2 as [|b r bs rs Hbr _ IH]; [constructor |].
  inversion Hall; subst. constructor; [eapply paid_as_frame; eassumption | auto].
Qed.

(** The loop on one event's rows, when every winner's payout is
    computed: every bettor is paid as [paid_as] says. *)
Lemma pay_bets_ok (bs : list bet_row) :
  forall (d : db) (acc : list result_row),
    NoDup (user_id <$> bs) ->
    balances_ok d ->
    Forall (fun b => choice b = winning_choice ->
              exists p, payout_of (amount b) total_winning total_losing = inr p /\ 0 <= p) bs ->
    exists d' rs,
      pay_bets winning_choice total_winning total_losing bs d acc = (d', inr (acc ++ rs)) /\
      (forall u, u ∉ user_id <$> bs -> users d' !! u = users d !! u) /\
      Forall2 (paid_as winning_choice total_winning total_losing d d') bs rs.
Proof.
  induction bs as [|b rest IH]; intros d acc Hnd Hok Hpay.
  - exists d, []. cbn. rewrite app_nil_r. repeat split. constructor.
  - rewrite fmap_cons in Hnd. apply NoDup_cons in Hnd as [Hfresh Hnd].
    apply Forall_cons in Hpay as [Hb Hpay].
    destruct (decide (choice b = winning_choice)) as [Hc | Hc].
    + destruct (Hb Hc) as (p & Hp & Hp0).
      rewrite (pay_bets_won _ _ _ _ p Hc Hp).
      destruct (IH (adjust d (user_id b) p) (acc ++ [won_row b p]) Hnd
                  (adjust_ok _ _ _ Hok) Hpay) as (d' & rs & Heq & Hframe & Hall).
      exists d', (won_row b p :: rs). rewrite Heq, <- app_assoc. cbn [app].
      assert (Hothers : forall u, u <> user_id b ->
                users (adjust d (user_id b) p) !! u = users d !! u).
      { intros u Hu. rewrite adjust_users. apply lookup_insert_ne. congruence. }
      repeat split.
      * intros u Hu. rewrite fmap_cons in Hu. apply not_elem_of_cons in Hu as [Hu1 Hu2].
        rewrite (Hframe u Hu2). apply Hothers, Hu1.
      * constructor.
        -- unfold paid_as. rewrite bool_decide_eq_true_2 by exact Hc.
           cbn. repeat split; [exact Hp |].
           rewrite (Hframe _ Hfresh), adjust_users, lookup_insert_eq.
           f_equal. pose proof (balance_of_ok d (user_id b) Hok). lia.
        -- eapply paid_as_frame_all; [| exact Hall].
           apply Forall_forall. intros b' Hb'. apply Hothers.
           intros Heq'. apply Hfresh. rewrite <- Heq'.
           apply list_elem_of_fmap. exists b'. auto.
    + rewrite (pay_bets_lost _ _ _ _ Hc).
      destruct (IH d (acc ++ [lost_row b]) Hnd Hok Hpay) as (d' & rs & Heq & Hframe & Hall).
      exists d', (lost_row b :: rs). rewrite Heq, <- app_assoc. cbn [app].
      repeat split.
      * intros u Hu. rewrite fmap_cons in Hu. apply not_elem_of_cons in Hu as [Hu1 Hu2].
        apply Hframe, Hu2.
      * constructor; [| exact Hall].
        unfold paid_as. rewrite bool_decide_eq_false_2 by exact Hc.
        cbn. repeat split. apply Hframe, Hfresh.
Qed.

End PayoutLoop.

(** ** The rows of one event *)

Section EventRows.

Lemma get_bets_elem (d : db) (mid : string) (b : bet_row) :
  b ∈ get_bets_for_message d mid <-> b ∈ bets d /\ message_id b = mid.
Proof. unfold get_bets_for_message. rewrite list_elem_of_filter. tauto. Qed.

Lemma unique_users_of_message (d : db) (mid : string) :
  bets_unique d -> NoDup (user_id <$> get_bets_for_message d mid).
Proof.
  unfold bets_unique, get_bets_for_message.
  induction (bets d) as [|b rest IH]; intros Hnd; [constructor |].
  rewrite fmap_cons in Hnd. apply NoDup_cons in Hnd as [Hfresh Hnd].
  rewrite filter_cons. destruct (decide (message_id b = mid)) as [Hm | Hm]; [| auto].
  rewrite fmap_cons. apply NoDup_cons. split; [| auto].
  intros Hin. apply Hfresh.
  apply list_elem_of_fmap in Hin as (b' & Hu & Hb').
  apply list_elem_of_filter in Hb' as [Hm' Hb'].
  apply list_elem_of_fmap. exists b'. split; [congruence | exact Hb'].
Qed.

Lemma stakes_of_message (d : db) (mid : string) :
  stakes_ok d -> Forall (fun b => 1 <= amount b) (get_bets_for_message d mid).
Proof.
  unfold stakes_ok. rewrite !Forall_forall. intros H b Hb.
  apply get_bets_elem in Hb as [Hb _]. auto.
Qed.

Lemma unresolved_of_message (d : db) (mid : string) :
  unresolved_ok d ->
  existsb (fun b => Py.truthy (resolved b)) (get_bets_for_message d mid) = false.
Proof.
  unfold unresolved_ok. intros H.
  assert (Hall : Forall (fun b => resolved b = 0) (get_bets_for_message d mid)).
  { rewrite Forall_forall in *. intros b Hb. apply get_bets_elem in Hb as [Hb _]. auto. }
  induction Hall as [|b bs Hb _ IH]; [reflexivity |].
  cbn. rewrite Hb, IH. reflexivity.
Qed.

Lemma sum_amounts_cons (b : bet_row) (bs : list bet_row) :
  sum_amounts (b :: bs) = amount b + sum_amounts bs.
Proof. reflexivity. Qed.

Lemma sum_amounts_nonneg (bs : list bet_row) :
  Forall (fun b => 1 <= amount b) bs -> 0 <= sum_amounts bs.
Proof. induction 1; [cbn | rewrite sum_amounts_cons]; lia. Qed.

Lemma amount_le_sum (bs : list bet_row) (b : bet_row) :
  Forall (fun b => 1 <= amount b) bs -> b ∈ bs -> amount b <= sum_amounts bs.
Proof.
  intros Hall Hb. induction Hall as [|b' bs Hb' Hall IH]; [inversion Hb |].
  pose proof (sum_amounts_nonneg bs Hall).
  rewrite sum_amounts_cons.
  apply elem_of_cons in Hb as [-> | Hb]; [lia |]. specialize (IH Hb). lia.
Qed.

Lemma sum_filter_le (P : bet_row -> Prop) `{forall b, Decision (P b)} (bs : list bet_row) :
  Forall (fun b => 1 <= amount b) bs -> sum_amounts (filter P bs) <= sum_amounts bs.
Proof.
  induction 1 as [|b bs Hb Hall IH]; [reflexivity |].
  pose proof (sum_amounts_nonneg bs Hall).
  rewrite filter_cons. destruct (decide (P b)); rewrite ?sum_amounts_cons; lia.
Qed.

Lemma delete_marked_bets (d : db) (mid : string) :
  bets (delete_bets (mark_bets_resolved d mid) mid)
  = filter (fun b => message_id b ≠ mid) (bets d).
Proof.
  unfold delete_bets, mark_bets_resolved. cbn [bets].
  induction (bets d) as [|b rest IH]; [reflexivity |].
  rewrite fmap_cons, !filter_cons.
  destruct (decide (message_id b = mid)) as [Hm | Hm].
  - rewrite bool_decide_eq_true_2 by exact Hm. cbn [message_id].
    rewrite !decide_False by tauto. exact IH.
  - rewrite bool_decide_eq_false_2 by exact Hm.
    rewrite !decide_True by exact Hm. rewrite IH. reflexivity.
Qed.

Lemma get_bets_after_delete (d : db) (mid mid' : string) :
  filter (fun b => message_id b = mid') (filter (fun b => message_id b ≠ mid) (bets d))
  = if decide (mid' = mid) then [] else get_bets_for_message d mid'.
Proof.
  unfold get_bets_for_message.
  induction (bets d) as [|b rest IH]; [destruct (decide (mid' = mid)); reflexivity |].
  rewrite (filter_cons (fun b => message_id b ≠ mid)).
  destruct (decide (message_id b ≠ mid)) as [Hm | Hm].
  - rewrite !filter_cons, IH.
    destruct (decide (message_id b = mid')); destruct (decide (mid' = mid));
      try reflexivity; congruence.
  - rewrite IH, filter_cons.
    destruct (decide (message_id b = mid')); destruct (decide (mid' = mid));
      try reflexivity. exfalso. apply Hm. congruence.
Qed.

End EventRows.

(** ** Settlement *)

Section Settlement.

(** A settlement that goes through: what it answers and what it leaves. *)
Lemma settle_ok (d : db) (mid : string) (winning_choice : Z) :
  let bs := get_bets_for_message d mid in
  let total_winning := total_for winning_choice bs in
  let total_losing := total_against winning_choice bs in
  ledger_ok d -> bs <> [] ->
  Forall (fun b => choice b = winning_choice ->
            exists p, payout_of (amount b) total_winning total_losing = inr p /\ 0 <= p) bs ->
  exists d' rs,
    settle d mid winning_choice = (d', Resolved total_winning total_losing rs) /\
    Forall2 (paid_as winning_choice total_winning total_losing d d') bs rs /\
    bets d' = filter (fun b => message_id b ≠ mid) (bets d) /\
    highest_bet d' = highest_bet d /\
    (forall u, u ∉ user_id <$> bs -> users d' !! u = users d !! u).
Proof.
  cbv zeta. intros (Hbal & Huniq & Hstakes & Hunres) Hne Hpay.
  destruct (pay_bets_ok winning_choice _ _ _ d []
              (unique_users_of_message d mid Huniq) Hbal Hpay)
    as (d1 & rs & Heq & Hframe & Hall).
  pose proof (pay_bets_frame winning_choice
                (total_for winning_choice (get_bets_for_message d mid))
                (total_against winning_choice (get_bets_for_message d mid))
                (get_bets_for_message d mid) d []) as Hfr.
  cbv zeta in Hfr. rewrite Heq in Hfr. cbn [fst app] in Hfr, Heq.
  destruct Hfr as (Hb1 & Hh1 & _).
  exists (delete_bets (mark_bets_resolved d1 mid) mid), rs.
  repeat split.
  - unfold settle. rewrite (unresolved_of_message d mid Hunres), Heq.
    destruct (get_bets_for_message d mid); [congruence | reflexivity].
  - exact Hall.
  - rewrite delete_marked_bets, Hb1. reflexivity.
  - exact Hh1.
  - intros u Hu. apply Hframe, Hu.
Qed.

End Settlement.

(** ** Placing a bet *)

Section Placement.

Lemma find_same_key_none (d : db) (mid uid : string) :
  find (same_key mid uid) (bets d) = None <->
  (mid, uid) ∉ (fun b => (message_id b, user_id b)) <$> bets d.
Proof.
  induction (bets d) as [|b rest IH]; cbn [find].
  - rewrite fmap_nil. split; [intros _; apply not_elem_of_nil | reflexivity].
  - rewrite fmap_cons, not_elem_of_cons. unfold same_key at 1.
    destruct (decide (message_id b = mid)) as [Hm | Hm];
      destruct (decide (user_id b = uid)) as [Hu | Hu];
      rewrite ?(bool_decide_eq_true_2 _ Hm), ?(bool_decide_eq_false_2 _ Hm),
        ?(bool_decide_eq_true_2 _ Hu), ?(bool_decide_eq_false_2 _ Hu); cbn [andb].
    + split; [discriminate |]. intros [Hne _]. exfalso. apply Hne. congruence.
    + rewrite IH. split; [intros H; split; [congruence | exact H] | tauto].
    + rewrite IH. split; [intros H; split; [congruence | exact H] | tauto].
    + rewrite IH. split; [intros H; split; [congruence | exact H] | tauto].
Qed.

(** A refused placement is refused with [DuplicateBetError], and it is
    refused exactly when the pair has a row. *)
Lemma place_bet_duplicate (d : db) (mid uid : string) (ch amt : Z) :
  (mid, uid) ∈ (fun b => (message_id b, user_id b)) <$> bets d ->
  place_bet d mid uid ch amt = inl DuplicateBetError.
Proof.
  intros Hin. unfold place_bet.
  destruct (find (same_key mid uid) (bets d)) eqn:Hf; [reflexivity |].
  apply find_same_key_none in Hf. contradiction.
Qed.

Lemma place_bet_fresh (d : db) (mid uid : string) (ch amt : Z) :
  (mid, uid) ∉ (fun b => (message_id b, user_id b)) <$> bets d ->
  place_bet d mid uid ch amt
  = inr {| users := users d;
           bets := bets d ++ [{| message_id := mid; user_id := uid; choice := ch;
                                 amount := amt; resolved := 0 |}];
           highest_bet :=
             if match highest_amount d with
                | None => true
                | Some best => best <? amt
                end
             then Some {| hb_user_id := uid; hb_message_id := mid;
                          hb_choice := ch; hb_amount := amt |}
             else highest_bet d |}.
Proof.
  intros Hin. apply find_same_key_none in Hin. unfold place_bet. rewrite Hin. reflexivity.
Qed.

Lemma place_bet_inv (d d' : db) (mid uid : string) (ch amt : Z) :
  place_bet d mid uid ch amt = inr d' ->
  (mid, uid) ∉ (fun b => (message_id b, user_id b)) <$> bets d.
Proof.
  intros Hp Hin. rewrite (place_bet_duplicate d mid uid ch amt Hin) in Hp. discriminate.
Qed.

Lemma place_bet_ok (d d' : db) (mid uid : string) (ch amt : Z) :
  ledger_ok d -> 1 <= amt -> place_bet d mid uid ch amt = inr d' -> ledger_ok d'.
Proof.
  intros (Hbal & Huniq & Hstakes & Hunres) Hamt Hp.
  pose proof (place_bet_inv _ _ _ _ _ _ Hp) as Hfresh.
  rewrite (place_bet_fresh _ _ _ ch amt Hfresh) in Hp. injection Hp as <-.
  repeat split.
  - exact Hbal.
  - unfold bets_unique. cbn [bets]. rewrite fmap_app. apply NoDup_app.
    split; [exact Huniq |]. split; [| apply NoDup_singleton].
    intros k Hk Hk'. cbn in Hk'. apply list_elem_of_singleton in Hk'. subst k. contradiction.
  - unfold stakes_ok. cbn [bets]. apply Forall_app. split; [exact Hstakes |].
    apply Forall_singleton. exact Hamt.
  - unfold unresolved_ok. cbn [bets]. apply Forall_app. split; [exact Hunres |].
    apply Forall_singleton. reflexivity.
Qed.

Lemma record_le_refl (a : option Z) : record_le a a.
Proof. destruct a; cbn; [lia | exact I]. Qed.

Lemma record_le_trans (a b c : option Z) : record_le a b -> record_le b c -> record_le a c.
Proof. destruct a, b, c; cbn; try tauto; lia. Qed.

Lemma place_bet_record_le (d d' : db) (mid uid : string) (ch amt : Z) :
  place_bet d mid uid ch amt = inr d' -> record_le (highest_amount d) (highest_amount d').
Proof.
  intros Hp. pose proof (place_bet_inv _ _ _ _ _ _ Hp) as Hfresh.
  rewrite (place_bet_fresh _ _ _ ch amt Hfresh) in Hp. injection Hp as <-.
  unfold highest_amount at 2 3. cbn [highest_bet].
  destruct (highest_bet d) as [h|] eqn:Hh; unfold highest_amount; rewrite ?Hh; cbn;
    [| exact I].
  destruct (Z.ltb_spec (hb_amount h) amt); rewrite ?Hh; cbn; lia.
Qed.

End Placement.

(** ** The invariants along every run *)

Section Invariants.

Variable OWNER_ID : option Z.

(** Writes to balances only, and deletions of rows, keep the ledger in
    order. *)
Lemma ledger_ok_shrink (d d' : db) (P : bet_row -> Prop) `{forall b, Decision (P b)} :
  ledger_ok d -> balances_ok d' -> bets d' = filter P (bets d) -> ledger_ok d'.
Proof.
  intros (_ & Huniq & Hstakes & Hunres) Hbal Hb. repeat split.
  - exact Hbal.
  - unfold bets_unique in *. rewrite Hb.
    refine (sublist_NoDup _ _ Huniq _). apply fmap_sublist, sublist_filter.
  - unfold stakes_ok in *. rewrite Hb. rewrite Forall_forall in *.
    intros b Hin. apply list_elem_of_filter in Hin as [_ Hin]. auto.
  - unfold unresolved_ok in *. rewrite Hb. rewrite Forall_forall in *.
    intros b Hin. apply list_elem_of_filter in Hin as [_ Hin]. auto.
Qed.

Lemma ledger_ok_same_bets (d d' : db) :
  ledger_ok d -> balances_ok d' -> bets d' = bets d -> ledger_ok d'.
Proof.
  intros (_ & Huniq & Hstakes & Hunres) Hbal Hb.
  unfold ledger_ok, bets_unique, stakes_ok, unresolved_ok. rewrite Hb. auto.
Qed.

Lemma get_user_balance_ledger (d : db) (uid : string) :
  ledger_ok d -> ledger_ok (get_user_balance d uid).1.
Proof.
  intros Hok. eapply ledger_ok_same_bets; [exact Hok | |].
  - apply get_user_balance_ok, Hok.
  - apply get_user_balance_bets.
Qed.

Lemma set_user_balance_ledger (d : db) (uid : string) (b : Z) :
  ledger_ok d -> ledger_ok (set_user_balance d uid b).1.
Proof.
  intros Hok. eapply ledger_ok_same_bets; [exact Hok | |].
  - apply set_user_balance_ok, Hok.
  - reflexivity.
Qed.

Lemma settle_ledger (d : db) (mid : string) (winning_choice : Z) :
  ledger_ok d -> ledger_ok (settle d mid winning_choice).1.
Proof.
  intros Hok. unfold settle.
  destruct (get_bets_for_message d mid) as [|b0 bs0] eqn:Hbs; [exact Hok |].
  destruct (existsb _ _); [exact Hok |].
  pose proof (pay_bets_frame winning_choice
                (total_for winning_choice (b0 :: bs0))
                (total_against winning_choice (b0 :: bs0)) (b0 :: bs0) d []) as Hfr.
  cbv zeta in Hfr.
  destruct (pay_bets _ _ _ (b0 :: bs0) d []) as [d1 [e | rs]];
    cbn [fst] in *; destruct Hfr as (Hb & _ & Hbal).
  - eapply ledger_ok_same_bets; [exact Hok | apply Hbal, Hok | exact Hb].
  - eapply (ledger_ok_shrink d _ (fun b => message_id b ≠ mid)); [exact Hok | apply Hbal, Hok |].
    rewrite delete_marked_bets, Hb. reflexivity.
Qed.

Lemma cmd_resolve_ledger (i : interaction) (g : guild) (d : db) (mid : string)
    (winning_choice : Z) :
  ledger_ok d -> ledger_ok (cmd_resolve OWNER_ID i g d mid winning_choice).1.
Proof.
  intros Hok. unfold cmd_resolve.
  destruct (resolve_guards OWNER_ID i g mid winning_choice); [exact Hok |].
  apply settle_ledger, Hok.
Qed.

(** The two parts of [/resolve], run one after the other, are [/resolve]. *)
Lemma cmd_resolve_split (i : interaction) (g : guild) (d : db) (mid : string)
    (winning_choice : Z) :
  cmd_resolve OWNER_ID i g d mid winning_choice
  = match cmd_resolve_begin OWNER_ID i g d mid winning_choice with
    | inl reply => (d, reply)
    | inr t => cmd_resolve_finish d t
    end.
Proof.
  unfold cmd_resolve, cmd_resolve_begin, settle.
  destruct (resolve_guards OWNER_ID i g mid winning_choice) as [r | msg]; [reflexivity |].
  destruct (get_bets_for_message d (msg_id msg)) as [|b0 bs0]; [reflexivity |].
  destruct (existsb _ _); reflexivity.
Qed.

(** The second part writes balances, and deletes the rows of its event
    when it gets there. *)
Lemma cmd_resolve_finish_frame (d : db) (t : resolve_task) :
  let d' := (cmd_resolve_finish d t).1 in
  (bets d' = bets d \/ bets d' = filter (fun b => message_id b ≠ rt_message t) (bets d)) /\
  highest_bet d' = highest_bet d /\
  (balances_ok d -> balances_ok d').
Proof.
  cbv zeta. unfold cmd_resolve_finish.
  pose proof (pay_bets_frame (rt_choice t)
                (total_for (rt_choice t) (rt_bets t))
                (total_against (rt_choice t) (rt_bets t)) (rt_bets t) d []) as Hfr.
  cbv zeta in Hfr.
  destruct (pay_bets _ _ _ (rt_bets t) d []) as [d1 [e | rs]];
    cbn [fst] in *; destruct Hfr as (Hb & Hh & Hbal).
  - auto.
  - split; [right; rewrite delete_marked_bets, Hb; reflexivity |]. auto.
Qed.

Lemma cmd_resolve_finish_ledger (d : db) (t : resolve_task) :
  ledger_ok d -> ledger_ok (cmd_resolve_finish d t).1.
Proof.
  intros Hok. destruct (cmd_resolve_finish_frame d t) as ([Hb | Hb] & _ & Hbal).
  - eapply ledger_ok_same_bets; [exact Hok | apply Hbal, Hok | exact Hb].
  - eapply (ledger_ok_shrink d _ (fun b => message_id b ≠ rt_message t));
      [exact Hok | apply Hbal, Hok | exact Hb].
Qed.

Lemma cmd_addcoins_db (i : interaction) (d : db) (uid : string) (amt : Z) :
  cmd_addcoins OWNER_ID i d uid amt
  = if addcoins_allowed OWNER_ID i
    then (adjust d uid amt, Adjusted amt (balance_of d uid + amt))
    else (d, NotAllowed).
Proof.
  unfold cmd_addcoins, adjust. rewrite <- balance_of_get.
  destruct (addcoins_allowed OWNER_ID i); cbn [negb]; [| reflexivity].
  destruct (get_user_balance d uid) as [d1 cur]. reflexivity.
Qed.

Lemma adjust_ledger (d : db) (uid : string) (delta : Z) :
  ledger_ok d -> ledger_ok (adjust d uid delta).
Proof.
  intros Hok. eapply ledger_ok_same_bets; [exact Hok | apply adjust_ok, Hok |].
  apply adjust_bets.
Qed.

Lemma cmd_addcoins_ledger (i : interaction) (d : db) (uid : string) (amt : Z) :
  ledger_ok d -> ledger_ok (cmd_addcoins OWNER_ID i d uid amt).1.
Proof.
  intros Hok. rewrite cmd_addcoins_db.
  destruct (addcoins_allowed OWNER_ID i); [apply adjust_ledger, Hok | exact Hok].
Qed.

Lemma on_message_finish_ledger (st : state) (t : dm_task) :
  ledger_ok (st_db st) -> ledger_ok (st_db (on_message_finish st t).1).
Proof.
  intros Hok. unfold on_message_finish.
  pose proof (get_user_balance_ledger (st_db st) (task_user t) Hok) as H1.
  destruct (get_user_balance (st_db st) (task_user t)) as [d1 bal]. cbn [fst] in H1.
  destruct (bal <? task_amount t); [exact H1 |].
  destruct (Z.ltb_spec (task_amount t) 1) as [| Hamt]; [exact H1 |].
  pose proof (set_user_balance_ledger d1 (task_user t) (bal - task_amount t) H1) as H2.
  destruct (set_user_balance d1 (task_user t) (bal - task_amount t)) as [d2 s].
  cbn [fst] in H2.
  destruct (place_bet d2 _ _ _ _) as [e | d3] eqn:Hp; [exact H2 |].
  cbn [fst st_db]. eapply place_bet_ok; [exact H2 | exact Hamt | exact Hp].
Qed.

Lemma on_message_begin_db (st : state) (uid : string) (content : option Z) :
  st_db (on_message_begin st uid content).1 = st_db st.
Proof.
  unfold on_message_begin.
  destruct (pending_stakes st !! uid) as [[mid ch]|]; [| reflexivity].
  destruct content; reflexivity.
Qed.

Lemma on_raw_reaction_add_db (st : state) (uid mid : string) (ch : Z) :
  st_db (on_raw_reaction_add st uid mid ch) = st_db st.
Proof.
  unfold on_raw_reaction_add.
  destruct (find _ _); [reflexivity |].
  destruct (pending_stakes st !! uid) as [[m prev]|]; [| reflexivity].
  destruct (bool_decide (m = mid)); reflexivity.
Qed.

Lemma on_raw_reaction_remove_db (st : state) (uid mid : string) :
  st_db (on_raw_reaction_remove st uid mid) = st_db st.
Proof.
  unfold on_raw_reaction_remove.
  destruct (pending_stakes st !! uid) as [[m prev]|]; [| reflexivity].
  destruct (bool_decide (m = mid)); reflexivity.
Qed.

Lemma step_ledger (b : bot) (ev : event) :
  ledger_ok (st_db (bot_state b)) -> ledger_ok (st_db (bot_state (step OWNER_ID b ev))).
Proof.
  intros Hok. destruct ev; cbn [step].
  - apply get_user_balance_ledger, Hok.
  - apply cmd_addcoins_ledger, Hok.
  - apply cmd_resolve_ledger, Hok.
  - cbn [bot_state]. rewrite on_raw_reaction_add_db. exact Hok.
  - cbn [bot_state]. rewrite on_raw_reaction_remove_db. exact Hok.
  - pose proof (on_message_begin_db (bot_state b) uid content) as Hdb.
    destruct (on_message_begin (bot_state b) uid content) as [st1 [r | t]];
      cbn [fst bot_state] in *; rewrite Hdb; exact Hok.
  - destruct (parked b !! n) as [t|]; [| exact Hok].
    apply on_message_finish_ledger, Hok.
  - destruct (cmd_resolve_begin OWNER_ID i g _ mid winning_choice); exact Hok.
  - destruct (resolving b !! n) as [t|]; [| exact Hok].
    apply cmd_resolve_finish_ledger, Hok.
Qed.

Lemma init_ledger_ok : ledger_ok init_db.
Proof.
  repeat split.
  - apply map_Forall_empty.
  - constructor.
  - constructor.
  - constructor.
Qed.

Lemma run_ledger (evs : list event) (b : bot) :
  ledger_ok (st_db (bot_state b)) -> ledger_ok (st_db (bot_state (run OWNER_ID evs b))).
Proof.
  revert b. induction evs as [|ev evs IH]; intros b Hok; [exact Hok |].
  cbn [run foldl]. apply IH, step_ledger, Hok.
Qed.

(** In every state the bot reaches the ledger is in order. *)
Lemma reachable_ledger_ok (evs : list event) :
  ledger_ok (st_db (bot_state (run OWNER_ID evs init_bot))).
Proof. apply run_ledger, init_ledger_ok. Qed.

End Invariants.

(** ** The sample ledgers *)

Lemma sample_db_ok : ledger_ok sample_db.
Proof.
  repeat split.
  - apply map_Forall_insert_2; [lia | apply map_Forall_empty].
  - apply (bool_decide_unpack _). vm_compute. exact I.
  - unfold stakes_ok. cbn [bets sample_db one_sided_db].
    repeat (apply Forall_cons_2; [cbn; lia |]). apply Forall_nil_2.
  - unfold unresolved_ok. cbn [bets sample_db one_sided_db].
    repeat (apply Forall_cons_2; [reflexivity |]). apply Forall_nil_2.
Qed.

Lemma one_sided_db_ok : ledger_ok one_sided_db.
Proof.
  repeat split.
  - apply map_Forall_insert_2; [lia | apply map_Forall_empty].
  - apply (bool_decide_unpack _). vm_compute. exact I.
  - unfold stakes_ok. cbn [bets sample_db one_sided_db].
    repeat (apply Forall_cons_2; [cbn; lia |]). apply Forall_nil_2.
  - unfold unresolved_ok. cbn [bets sample_db one_sided_db].
    repeat (apply Forall_cons_2; [reflexivity |]). apply Forall_nil_2.
Qed.

(** ** C1: settlement with both sides staked *)

Lemma paid_settled_all (winning_choice total_winning total_losing : Z) (d d' : db)
    (bs : list bet_row) (rs : list result_row) :
  0 < total_winning -> 0 < total_losing < 2 ^ 1023 ->
  Forall (fun b => 0 < amount b < 2 ^ 1021) bs ->
  Forall2 (paid_as winning_choice total_winning total_losing d d') bs rs ->
  Forall2 (settled_as winning_choice total_winning total_losing d d') bs rs.
Proof.
  intros HW HL Hall H2. induction H2 as [|b r bs rs Hbr _ IH]; [constructor |].
  apply Forall_cons in Hall as [Hb Hall]. constructor; [| auto].
  unfold paid_as, settled_as in *. destruct Hbr as (Hu & Hs & Hbr).
  repeat split; try assumption.
  destruct (bool_decide (choice b = winning_choice)); [| exact Hbr].
  destruct Hbr as (Ho & Hp & Hbal). repeat split; try assumption.
  destruct (payout_of_spec (amount b) total_winning total_losing HW HL Hb)
    as (p & Hp1 & Hp2 & _).
  congruence.
Qed.

(** C1.  For every event whose bets put coins on both sides
    ([total_winning > 0] and [total_losing > 0]), [/resolve] settles it (its
    database part runs to the deletion of line 492), and for every bet of
    the event, in order: a bettor on the winning side gets
    the payout [amount + floor(amount * odds)] with
    [odds = clamp(total_losing / total_winning, 0.25, 1.0)] (on doubles, as
    [spec_payout] writes it down) and finds it added to the balance; a bettor
    on the losing side gets payout 0 and the users table is left as it was
    for them.  The ledger is one the bot can be in ([ledger_ok]); the pot is
    below [2 ^ 1021] coins, beyond which the division and the product on
    doubles raise [OverflowError]; and every credit asks for a balance the
    [INTEGER] column holds ([credit_fits]), beyond which the write of line
    481 raises. *)
Theorem settlement_pays_winners_spares_losers
    (OWNER_ID : option Z) (i : interaction) (g : guild) (d : db)
    (mid : string) (winning_choice : Z) (msg : message) :
  resolve_guards OWNER_ID i g mid winning_choice = inr msg ->
  ledger_ok d ->
  let bs := get_bets_for_message d (msg_id msg) in
  let total_winning := total_for winning_choice bs in
  let total_losing := total_against winning_choice bs in
  bs <> [] -> 0 < total_winning -> 0 < total_losing -> sum_amounts bs < 2 ^ 1021 ->
  Forall (credit_fits winning_choice total_winning total_losing d) bs ->
  exists d' results,
    cmd_resolve OWNER_ID i g d mid winning_choice
    = (d', Resolved total_winning total_losing results) /\
    Forall2 (settled_as winning_choice total_winning total_losing d d') bs results.
Proof.
  intros Hg Hok bs total_winning total_losing Hne HW HL Hpot _.
  pose proof Hok as (_ & _ & Hstakes & _).
  pose proof (stakes_of_message d (msg_id msg) Hstakes) as Hst. fold bs in Hst.
  assert (Hrange : Forall (fun b => 0 < amount b < 2 ^ 1021) bs).
  { rewrite Forall_forall in *. intros b Hb.
    pose proof (amount_le_sum bs b (proj2 (Forall_forall _ _) Hst) Hb).
    specialize (Hst b Hb). cbv beta in Hst. lia. }
  assert (HL' : 0 < total_losing < 2 ^ 1023).
  { split; [exact HL |].
    pose proof (sum_filter_le (fun b => choice b ≠ winning_choice) bs Hst) as Hle.
    fold (total_against winning_choice bs) in Hle. fold total_losing in Hle.
    assert (2 ^ 1021 <= 2 ^ 1023) by (apply Z.pow_le_mono_r; lia). lia. }
  assert (Hpay : Forall (fun b => choice b = winning_choice ->
            exists p, payout_of (amount b) total_winning total_losing = inr p /\ 0 <= p) bs).
  { rewrite Forall_forall in *. intros b Hb _.
    destruct (payout_of_spec (amount b) total_winning total_losing HW HL' (Hrange b Hb))
      as (p & Hp & _ & Hle).
    exists p. split; [exact Hp |]. specialize (Hrange b Hb). cbv beta in Hrange. lia. }
  destruct (settle_ok d (msg_id msg) winning_choice Hok Hne Hpay)
    as (d' & rs & Heq & Hall & _).
  exists d', rs. split.
  - unfold cmd_resolve. rewrite Hg. exact Heq.
  - apply paid_settled_all; assumption.
Qed.

Lemma settlement_pays_winners_spares_losers_witness :
  exists d' results,
    cmd_resolve None sample_author sample_guild sample_db "m" 1
    = (d', Resolved 300 100 results) /\
    Forall2 (settled_as 1 300 100 sample_db d')
      [sample_bet "a" 1 30; sample_bet "b" 1 270; sample_bet "c" 2 100] results.
Proof.
  apply (settlement_pays_winners_spares_losers None sample_author sample_guild
           sample_db "m" 1 sample_message).
  - reflexivity.
  - exact sample_db_ok.
  - discriminate.
  - reflexivity.
  - reflexivity.
  - reflexivity.
  - repeat (apply Forall_cons_2;
            [intros _ p Hp; vm_compute in Hp; try discriminate Hp;
             injection Hp as <-; vm_compute; discriminate |]).
    apply Forall_nil_2.
Defined.

(** ** C2: the degenerate pot *)

Lemma odds_of_degenerate (total_winning total_losing : Z) :
  total_winning = 0 \/ total_losing = 0 ->
  odds_of total_winning total_losing = inr Py.float_1_0.
Proof.
  intros H. unfold odds_of.
  destruct (Z.eqb_spec total_winning 0); [reflexivity |].
  destruct (Z.eqb_spec total_losing 0); [reflexivity | lia].
Qed.

Lemma payout_of_degenerate (amt total_winning total_losing : Z) :
  total_winning = 0 \/ total_losing = 0 -> 0 < amt <= 2 ^ 53 ->
  payout_of amt total_winning total_losing = inr (2 * amt).
Proof.
  intros H Ha. unfold payout_of. rewrite (odds_of_degenerate _ _ H). cbn [bind].
  pose proof (bonus_at_even_odds amt Ha) as Hb.
  destruct (Py.int_mul_float amt Py.float_1_0) as [e | bonus]; [discriminate |].
  cbn [bind] in *. rewrite Hb. cbn [bind ret]. f_equal. lia.
Qed.

(** C2, as the claim has it, fails on a stake no double holds: with
    [2 ^ 53 + 1] coins on the winning side and nobody against, the odds are
    [1.0] and the payout is one coin short of twice the stake. *)
Lemma double_stake_fails_beyond_2_53 :
  total_against 1 (get_bets_for_message lone_whale_db "m") = 0 /\
  exists d',
    cmd_resolve None sample_author sample_guild lone_whale_db "m" 1
    = (d', Resolved 9007199254740993 0
             [{| res_user_id := "w"; outcome := won;
                 stake := 9007199254740993; payout := 18014398509481985 |}]) /\
    18014398509481985 <> 2 * 9007199254740993.
Proof.
  split; [reflexivity |]. eexists. split; [vm_compute; reflexivity | lia].
Qed.

(** C2, amended.  For every non-empty bet list with [total_winning = 0] or
    [total_losing = 0], the odds factor is [1.0], and for every bet on the
    declared choice, whatever the other stakes are, the payout of lines
    471-477 is [amount + int(amount * 1.0)], the product being taken on
    doubles; for a stake of at most [2 ^ 53] (stakes are at least 1), the
    integers a double holds exactly, that is exactly twice the stake. *)
Theorem degenerate_pot_doubles_stake (winning_choice : Z) (bs : list bet_row) :
  let total_winning := total_for winning_choice bs in
  let total_losing := total_against winning_choice bs in
  bs <> [] -> total_winning = 0 \/ total_losing = 0 ->
  odds_of total_winning total_losing = inr Py.float_1_0 /\
  Forall (fun b =>
            choice b = winning_choice ->
            payout_of (amount b) total_winning total_losing
            = (let* bonus := Py.int_mul_float (amount b) Py.float_1_0 in
               let* whole := Py.int_of_float bonus in
               ret (amount b + whole)) /\
            (1 <= amount b <= 2 ^ 53 ->
             payout_of (amount b) total_winning total_losing = inr (2 * amount b))) bs.
Proof.
  intros total_winning total_losing _ Hdeg.
  pose proof (odds_of_degenerate total_winning total_losing Hdeg) as Hodds.
  split; [exact Hodds |].
  apply Forall_forall. intros b _ _. split.
  - unfold payout_of. rewrite Hodds. reflexivity.
  - intros Hb. apply payout_of_degenerate; [exact Hdeg | lia].
Qed.

Lemma degenerate_pot_doubles_stake_witness :
  let bs := [sample_bet "a" 1 30; sample_bet "w" 1 9007199254740993] in
  odds_of (total_for 1 bs) (total_against 1 bs) = inr Py.float_1_0 /\
  Forall (fun b =>
            choice b = 1 ->
            payout_of (amount b) (total_for 1 bs) (total_against 1 bs)
            = (let* bonus := Py.int_mul_float (amount b) Py.float_1_0 in
               let* whole := Py.int_of_float bonus in
               ret (amount b + whole)) /\
            (1 <= amount b <= 2 ^ 53 ->
             payout_of (amount b) (total_for 1 bs) (total_against 1 bs)
             = inr (2 * amount b))) bs.
Proof.
  refine (degenerate_pot_doubles_stake 1
            [sample_bet "a" 1 30; sample_bet "w" 1 9007199254740993] _ _).
  - discriminate.
  - right. reflexivity.
Defined.

(** ** C3: the test vectors *)

(** C3, as the claim has it, fails on its first vector: with 300 coins on
    the winner and 100 against, [100 / 300] is the double nearest to one
    third and [30 * (100 / 300)] rounds to [10.0]; a stake of 30 is paid
    40, not 39. *)
Lemma stake_30_is_not_paid_39 :
  payout_of 30 300 100 <> inr 39.
Proof. vm_compute. discriminate. Qed.

(** C3, amended.  With [total_winning = 300] and [total_losing = 100] the
    ratio is the double nearest to one third, unclamped, and a stake of 30
    is paid 40; with 100 against 1000 the ratio clamps to [1.0] and a stake of
    50 is paid 100; with 1000 against 50 it clamps to [0.25] and a stake of
    40 is paid 50.  The bonus is cut toward zero on the double: a stake of
    100 with 100 against 58 is paid 157, the product being just below 58.
    The first vector is also what [/resolve] answers on [sample_db]. *)
Theorem payout_test_vectors :
  odds_of 300 100 = Py.int_truediv 100 300 /\
  payout_of 30 300 100 = inr 40 /\
  odds_of 100 1000 = inr Py.float_1_0 /\
  payout_of 50 100 1000 = inr 100 /\
  odds_of 1000 50 = inr Py.float_0_25 /\
  payout_of 40 1000 50 = inr 50 /\
  payout_of 100 100 58 = inr 157 /\
  (cmd_resolve None sample_author sample_guild sample_db "m" 1).2
  = Resolved 300 100
      [{| res_user_id := "a"; outcome := won; stake := 30; payout := 40 |};
       {| res_user_id := "b"; outcome := won; stake := 270; payout := 360 |};
       {| res_user_id := "c"; outcome := lost; stake := 100; payout := 0 |}].
Proof. repeat split; vm_compute; reflexivity. Qed.

(** ** C4: the floor of a balance write *)

(** C4.  Whatever balance [b] within the [INTEGER] column a write asks for
    (the debit of a bet, the credit of a settlement and [/addcoins] all
    write through [set_user_balance]; above [INT64_MAX] the binding raises and
    nothing is written), the balance stored afterwards is
    [max(1, floor(b))], which is what the call returns, is at least 1 and
    is again a value of the column; and in every state the bot reaches, every
    stored balance is at least 1. *)
Theorem balance_write_is_floored (d : db) (uid : string) (b : Z) :
  b <= INT64_MAX ->
  users (set_user_balance d uid b).1 !! uid = Some (Z.max 1 (Py.math_floor b)) /\
  (set_user_balance d uid b).2 = Z.max 1 (Py.math_floor b) /\
  1 <= Z.max 1 (Py.math_floor b) <= INT64_MAX /\
  (forall v, v <> uid -> users (set_user_balance d uid b).1 !! v = users d !! v) /\
  forall (OWNER_ID : option Z) (evs : list event),
    balances_ok (st_db (bot_state (run OWNER_ID evs init_bot))).
Proof.
  intros Hb. repeat split.
  - rewrite set_user_balance_users. apply lookup_insert_eq.
  - lia.
  - unfold Py.math_floor, INT64_MAX in *. lia.
  - intros v Hv. rewrite set_user_balance_users. apply lookup_insert_ne. congruence.
  - intros OWNER_ID evs. apply (reachable_ledger_ok OWNER_ID evs).
Qed.

Lemma balance_write_is_floored_witness :
  users (set_user_balance sample_db "a" (-7)).1 !! "a" = Some (Z.max 1 (Py.math_floor (-7))) /\
  (set_user_balance sample_db "a" (-7)).2 = Z.max 1 (Py.math_floor (-7)) /\
  1 <= Z.max 1 (Py.math_floor (-7)) <= INT64_MAX /\
  (forall v, v <> "a" ->
     users (set_user_balance sample_db "a" (-7)).1 !! v = users sample_db !! v) /\
  forall (OWNER_ID : option Z) (evs : list event),
    balances_ok (st_db (bot_state (run OWNER_ID evs init_bot))).
Proof.
  apply (balance_write_is_floored sample_db "a" (-7)).
  vm_compute. discriminate.
Defined.

(** ** C6 and C7: what a resolution refuses and what it leaves *)

Lemma settle_resolved_inv (d d' : db) (mid : string) (winning_choice : Z)
    (total_winning total_losing : Z) (rs : list result_row) :
  settle d mid winning_choice = (d', Resolved total_winning total_losing rs) ->
  bets d' = filter (fun b => message_id b ≠ mid) (bets d) /\
  highest_bet d' = highest_bet d.
Proof.
  unfold settle.
  destruct (get_bets_for_message d mid) as [|b0 bs0]; [discriminate |].
  destruct (existsb _ _); [discriminate |].
  pose proof (pay_bets_frame winning_choice
                (total_for winning_choice (b0 :: bs0))
                (total_against winning_choice (b0 :: bs0)) (b0 :: bs0) d []) as Hfr.
  cbv zeta in Hfr.
  destruct (pay_bets _ _ _ (b0 :: bs0) d []) as [d1 [e | rs']]; [discriminate |].
  cbn [fst] in Hfr. destruct Hfr as (Hb & Hh & _).
  intros [= <- _ _ _]. split.
  - rewrite delete_marked_bets, Hb. reflexivity.
  - exact Hh.
Qed.

Lemma settle_no_bets (d : db) (mid : string) (winning_choice : Z) :
  get_bets_for_message d mid = [] -> settle d mid winning_choice = (d, NoBetsError).
Proof. intros H. unfold settle. rewrite H. reflexivity. Qed.

Lemma settle_already_resolved (d : db) (mid : string) (winning_choice : Z) :
  get_bets_for_message d mid <> [] ->
  Exists (fun b => resolved b <> 0) (get_bets_for_message d mid) ->
  settle d mid winning_choice = (d, AlreadyResolvedError).
Proof.
  intros Hne Hex. unfold settle.
  assert (Hb : existsb (fun b => Py.truthy (resolved b)) (get_bets_for_message d mid) = true).
  { apply existsb_exists. apply Exists_exists in Hex as (b & Hb & Hr).
    exists b. split; [apply list_elem_of_In, Hb |].
    unfold Py.truthy. destruct (Z.eqb_spec (resolved b) 0); [contradiction | reflexivity]. }
  rewrite Hb. destruct (get_bets_for_message d mid); [congruence | reflexivity].
Qed.

Lemma resolve_guards_choice (OWNER_ID : option Z) (i : interaction) (g : guild)
    (mid : string) (w1 w2 : Z) (msg : message) :
  resolve_guards OWNER_ID i g mid w1 = inr msg -> w2 = 1 \/ w2 = 2 ->
  resolve_guards OWNER_ID i g mid w2 = inr msg.
Proof.
  unfold resolve_guards. intros H Hw.
  destruct (negb ((w1 =? 1) || (w1 =? 2))); [discriminate |].
  assert (Hw2 : negb ((w2 =? 1) || (w2 =? 2)) = false) by (destruct Hw; subst; reflexivity).
  rewrite Hw2. exact H.
Qed.

(** What [/resolve] refuses when nothing interleaves with it.  Past the
    permission checks it answers [NoBetsError] when the event has no bet row
    and [AlreadyResolvedError] when one of its rows is flagged resolved, and
    in both cases returns the database as it was; and a call that starts
    after a resolution has deleted the rows, for either choice, answers
    [NoBetsError] and leaves the database as that resolution left it. *)
Lemma resolve_refuses_empty_resolved_and_repeated
    (OWNER_ID : option Z) (i : interaction) (g : guild) (d : db)
    (mid : string) (winning_choice : Z) (msg : message) :
  resolve_guards OWNER_ID i g mid winning_choice = inr msg ->
  let bs := get_bets_for_message d (msg_id msg) in
  (bs = [] -> cmd_resolve OWNER_ID i g d mid winning_choice = (d, NoBetsError)) /\
  (bs <> [] -> Exists (fun b => resolved b <> 0) bs ->
   cmd_resolve OWNER_ID i g d mid winning_choice = (d, AlreadyResolvedError)) /\
  (forall d' total_winning total_losing results again,
     cmd_resolve OWNER_ID i g d mid winning_choice
     = (d', Resolved total_winning total_losing results) ->
     again = 1 \/ again = 2 ->
     cmd_resolve OWNER_ID i g d' mid again = (d', NoBetsError)).
Proof.
  intros Hg bs. unfold cmd_resolve. rewrite Hg. repeat split.
  - apply settle_no_bets.
  - apply settle_already_resolved.
  - intros d' W L rs again Hres Hagain.
    rewrite (resolve_guards_choice _ _ _ _ _ again _ Hg Hagain).
    apply settle_no_bets.
    destruct (settle_resolved_inv _ _ _ _ _ _ _ Hres) as [Hb _].
    unfold get_bets_for_message at 1. rewrite Hb, get_bets_after_delete.
    rewrite decide_True by reflexivity. reflexivity.
Qed.

(** C6, where the code departs from it.  The flag that [/resolve] checks at
    line 452 is set at line 488 only, after the credits, and the rows are
    deleted at line 492; every credit waits at an [await] in between.  After
    [bets_are_placed], user ["a"] holds 70 coins and 30 on choice 1 of
    message ["m"], against 60 on choice 2.  Two calls of [/resolve] for
    choice 1 that both read the bets before either deletes them both pass the
    two checks and both answer with the payout 60: the balance goes from 70
    to 130 and then to 190.  A second call that starts after the first has
    ended is refused. *)
Theorem overlapping_resolves_pay_twice :
  let b0 := run None bets_are_placed init_bot in
  let d0 := st_db (bot_state b0) in
  let t := {| rt_message := "m"; rt_choice := 1; rt_bets := bets d0 |} in
  let paid := [{| res_user_id := "a"; outcome := won; stake := 30; payout := 60 |};
               {| res_user_id := "c"; outcome := lost; stake := 60; payout := 0 |}] in
  let d1 := (cmd_resolve_finish d0 t).1 in
  let d2 := (cmd_resolve_finish d1 t).1 in
  bets d0 = [sample_bet "a" 1 30; sample_bet "c" 2 60] /\
  users d0 !! "a" = Some 70 /\
  cmd_resolve_begin None sample_author sample_guild d0 "m" 1 = inr t /\
  resolving (run None (take 2 overlapping_resolves) b0) = [t; t] /\
  (cmd_resolve_finish d0 t).2 = Resolved 30 60 paid /\
  users d1 !! "a" = Some 130 /\
  bets d1 = [] /\
  (cmd_resolve_finish d1 t).2 = Resolved 30 60 paid /\
  users d2 !! "a" = Some 190 /\
  st_db (bot_state (run None overlapping_resolves b0)) = d2 /\
  cmd_resolve None sample_author sample_guild d1 "m" 1 = (d1, NoBetsError).
Proof. repeat split; vm_compute; reflexivity. Qed.

(** C7.  After a resolution that went through, no bet row of the event is
    stored, the rows of every other event are the ones stored before, in
    the same order, and the highest-bet record is the one stored before. *)
Theorem resolution_deletes_only_its_rows
    (OWNER_ID : option Z) (i : interaction) (g : guild) (d d' : db)
    (mid : string) (winning_choice : Z) (msg : message)
    (total_winning total_losing : Z) (results : list result_row) :
  resolve_guards OWNER_ID i g mid winning_choice = inr msg ->
  cmd_resolve OWNER_ID i g d mid winning_choice
  = (d', Resolved total_winning total_losing results) ->
  get_bets_for_message d' (msg_id msg) = [] /\
  (forall other, other <> msg_id msg ->
     get_bets_for_message d' other = get_bets_for_message d other) /\
  bets d' = filter (fun b => message_id b ≠ msg_id msg) (bets d) /\
  highest_bet d' = highest_bet d.
Proof.
  intros Hg. unfold cmd_resolve. rewrite Hg. intros Hres.
  destruct (settle_resolved_inv _ _ _ _ _ _ _ Hres) as [Hb Hh].
  repeat split; try assumption.
  - unfold get_bets_for_message at 1. rewrite Hb, get_bets_after_delete.
    rewrite decide_True by reflexivity. reflexivity.
  - intros other Hother.
    unfold get_bets_for_message at 1. rewrite Hb, get_bets_after_delete.
    rewrite decide_False by exact Hother. reflexivity.
Qed.

Lemma resolution_deletes_only_its_rows_witness :
  let d' := (cmd_resolve None sample_author sample_guild sample_db "m" 1).1 in
  get_bets_for_message d' "m" = [] /\
  (forall other, other <> "m" ->
     get_bets_for_message d' other = get_bets_for_message sample_db other) /\
  bets d' = filter (fun b => message_id b ≠ "m") (bets sample_db) /\
  highest_bet d' = highest_bet sample_db.
Proof.
  apply (resolution_deletes_only_its_rows None sample_author sample_guild sample_db
           (cmd_resolve None sample_author sample_guild sample_db "m" 1).1
           "m" 1 sample_message 300 100
           [{| res_user_id := "a"; outcome := won; stake := 30; payout := 40 |};
            {| res_user_id := "b"; outcome := won; stake := 270; payout := 360 |};
            {| res_user_id := "c"; outcome := lost; stake := 100; payout := 0 |}]).
  - reflexivity.
  - vm_compute. reflexivity.
Defined.

(** ** C8: the highest-bet record *)

Lemma place_bets_record_le (calls : list place_bet_call) :
  forall d, record_le (highest_amount d) (highest_amount (place_bets d calls)).
Proof.
  induction calls as [|[[[mid uid] ch] amt] calls IH]; intros d.
  - apply record_le_refl.
  - unfold place_bets. cbn [foldl]. fold (place_bets).
    destruct (place_bet d mid uid ch amt) as [e | d1] eqn:Hp.
    + apply IH.
    + eapply record_le_trans; [eapply place_bet_record_le, Hp | apply IH].
Qed.

(** C8.  A bet that is placed overwrites the highest-bet record with its
    own user, message, choice and amount when there is no record or when its
    amount is strictly above the recorded one, and otherwise (a tie
    included) leaves the record as it is; and over any sequence of
    [place_bet] calls, refused ones included, the recorded amount never
    decreases. *)
Theorem highest_bet_strictly_above
    (d d' : db) (mid uid : string) (ch amt : Z) :
  place_bet d mid uid ch amt = inr d' ->
  let mine := {| hb_user_id := uid; hb_message_id := mid;
                 hb_choice := ch; hb_amount := amt |} in
  (highest_bet d = None -> highest_bet d' = Some mine) /\
  (forall h, highest_bet d = Some h -> hb_amount h < amt -> highest_bet d' = Some mine) /\
  (forall h, highest_bet d = Some h -> amt <= hb_amount h -> highest_bet d' = Some h) /\
  (forall h, highest_bet d = Some h -> amt = hb_amount h -> highest_bet d' = Some h) /\
  forall (d0 : db) (calls : list place_bet_call),
    record_le (highest_amount d0) (highest_amount (place_bets d0 calls)).
Proof.
  intros Hp mine. pose proof (place_bet_inv _ _ _ _ _ _ Hp) as Hfresh.
  rewrite (place_bet_fresh _ _ _ ch amt Hfresh) in Hp. injection Hp as <-.
  cbn [highest_bet]. unfold highest_amount. repeat split.
  - intros ->. reflexivity.
  - intros h -> Hlt. cbn. rewrite (proj2 (Z.ltb_lt _ _) Hlt). reflexivity.
  - intros h -> Hle. cbn. rewrite (proj2 (Z.ltb_ge _ _) Hle). reflexivity.
  - intros h -> Heq. cbn. rewrite (proj2 (Z.ltb_ge _ _)) by lia. reflexivity.
  - intros d0 calls. apply place_bets_record_le.
Qed.

Lemma highest_bet_strictly_above_witness :
  let mine := {| hb_user_id := "d"; hb_message_id := "m";
                 hb_choice := 2; hb_amount := 50 |} in
  let d' := {| users := users sample_db;
               bets := bets sample_db ++ [sample_bet "d" 2 50];
               highest_bet := Some mine |} in
  (highest_bet sample_db = None -> highest_bet d' = Some mine) /\
  (forall h, highest_bet sample_db = Some h -> hb_amount h < 50 -> highest_bet d' = Some mine) /\
  (forall h, highest_bet sample_db = Some h -> 50 <= hb_amount h -> highest_bet d' = Some h) /\
  (forall h, highest_bet sample_db = Some h -> 50 = hb_amount h -> highest_bet d' = Some h) /\
  forall (d0 : db) (calls : list place_bet_call),
    record_le (highest_amount d0) (highest_amount (place_bets d0 calls)).
Proof.
  apply (highest_bet_strictly_above sample_db _ "m" "d" 2 50).
  reflexivity.
Defined.

(** ** C9: the first balance query *)

(** C9.  A balance query for a user without an account stores the default
    starting balance, 100, for that user, touches nothing else, and returns
    100; a query for a user with an account returns the stored balance and
    the database as it was, so every query after the first returns what is
    stored without changing it. *)
Theorem first_query_creates_account (d : db) (uid : string) :
  DEFAULT_START_BALANCE = 100 /\
  match users d !! uid with
  | None =>
      (get_user_balance d uid).2 = 100 /\
      users (get_user_balance d uid).1 = <[uid := 100]> (users d) /\
      bets (get_user_balance d uid).1 = bets d /\
      highest_bet (get_user_balance d uid).1 = highest_bet d /\
      get_user_balance (get_user_balance d uid).1 uid = ((get_user_balance d uid).1, 100)
  | Some balance => get_user_balance d uid = (d, balance)
  end.
Proof.
  split; [reflexivity |].
  destruct (users d !! uid) as [balance|] eqn:Hu.
  - unfold get_user_balance. rewrite Hu. reflexivity.
  - assert (Hg : get_user_balance d uid
                 = ({| users := <[uid := 100]> (users d); bets := bets d;
                       highest_bet := highest_bet d |}, 100))
      by (unfold get_user_balance; rewrite Hu; reflexivity).
    rewrite Hg. cbn [fst snd users bets highest_bet]. repeat split.
    unfold get_user_balance. cbn [users]. rewrite lookup_insert_eq. reflexivity.
Qed.

(** ** C10: /addcoins *)

(** C10.  When the invoker may use [/addcoins], an adjustment by a signed
    amount stores [max(1, old_balance + amount)] for the user, [old_balance]
    being what a balance query reports (the default for a new user), while the
    reply reports [old_balance + amount] unclamped; so a deduction of the
    whole balance or more leaves 1 stored.  The sum is one the [INTEGER]
    column holds: above [INT64_MAX] the write of line 419 raises and no
    confirmation is sent. *)
Theorem addcoins_stores_clamped_reports_raw
    (OWNER_ID : option Z) (i : interaction) (d : db) (uid : string) (amt : Z) :
  addcoins_allowed OWNER_ID i = true ->
  let old_balance := (get_user_balance d uid).2 in
  let d' := (cmd_addcoins OWNER_ID i d uid amt).1 in
  old_balance + amt <= INT64_MAX ->
  (cmd_addcoins OWNER_ID i d uid amt).2 = Adjusted amt (old_balance + amt) /\
  users d' !! uid = Some (Z.max 1 (old_balance + amt)) /\
  (old_balance + amt <= 1 -> users d' !! uid = Some 1) /\
  (forall v, v <> uid -> users d' !! v = users d !! v) /\
  bets d' = bets d /\ highest_bet d' = highest_bet d.
Proof.
  intros Hallowed old_balance d' _. subst old_balance d'.
  rewrite cmd_addcoins_db, Hallowed, balance_of_get. cbn [fst snd].
  destruct (adjust_bets d uid amt) as [Hb Hh].
  repeat split; try assumption.
  - rewrite adjust_users. apply lookup_insert_eq.
  - intros Hle. rewrite adjust_users, lookup_insert_eq. f_equal. lia.
  - intros v Hv. rewrite adjust_users. apply lookup_insert_ne. congruence.
Qed.

Lemma addcoins_stores_clamped_reports_raw_witness :
  (cmd_addcoins None sample_admin sample_db "a" (-20)).2 = Adjusted (-20) (5 + -20) /\
  users (cmd_addcoins None sample_admin sample_db "a" (-20)).1 !! "a"
  = Some (Z.max 1 (5 + -20)) /\
  (5 + -20 <= 1 -> users (cmd_addcoins None sample_admin sample_db "a" (-20)).1 !! "a" = Some 1) /\
  (forall v, v <> "a" ->
     users (cmd_addcoins None sample_admin sample_db "a" (-20)).1 !! v = users sample_db !! v) /\
  bets (cmd_addcoins None sample_admin sample_db "a" (-20)).1 = bets sample_db /\
  highest_bet (cmd_addcoins None sample_admin sample_db "a" (-20)).1 = highest_bet sample_db.
Proof.
  apply (addcoins_stores_clamped_reports_raw None sample_admin sample_db "a" (-20)).
  - reflexivity.
  - vm_compute. discriminate.
Defined.

(** ** C5: one bet per user and event, and the second attempt *)

(** The primary key holds in every state the bot reaches. *)
Lemma one_bet_per_user_and_event (OWNER_ID : option Z) (evs : list event) :
  bets_unique (st_db (bot_state (run OWNER_ID evs init_bot))).
Proof. apply (reachable_ledger_ok OWNER_ID evs). Qed.

(** A stake sent while the user already holds a bet on the pending message:
    [place_bet] refuses it, after line 228 has written the debit. *)
Lemma duplicate_attempt_is_debited (st : state) (uid mid : string) (ch amt : Z) :
  pending_stakes st !! uid = Some (mid, ch) ->
  (mid, uid) ∈ (fun b => (message_id b, user_id b)) <$> bets (st_db st) ->
  1 <= amt <= balance_of (st_db st) uid ->
  (on_message st uid (Some amt)).2 = PlaceBetFailed DuplicateBetError /\
  bets (st_db (on_message st uid (Some amt)).1) = bets (st_db st) /\
  highest_bet (st_db (on_message st uid (Some amt)).1) = highest_bet (st_db st) /\
  users (st_db (on_message st uid (Some amt)).1) !! uid
  = Some (Z.max 1 (balance_of (st_db st) uid - amt)).
Proof.
  intros Hpend Hbet [Hlo Hhi].
  unfold on_message, on_message_begin. rewrite Hpend.
  unfold on_message_finish. cbn [task_user task_amount task_msg_id task_choice st_db].
  pose proof (balance_of_get (st_db st) uid) as Hbal.
  pose proof (get_user_balance_bets (st_db st) uid) as [Hb Hh].
  pose proof (get_user_balance_users (st_db st) uid) as Hu.
  destruct (get_user_balance (st_db st) uid) as [d1 bal]. cbn [fst snd] in *. subst bal.
  rewrite (proj2 (Z.ltb_ge _ _) Hhi), (proj2 (Z.ltb_ge _ _) Hlo).
  cbn [set_user_balance].
  rewrite place_bet_duplicate by (cbn [bets]; rewrite Hb; exact Hbet).
  cbn [fst snd st_db bets highest_bet users]. repeat split; try assumption.
  rewrite Hu, insert_insert_eq. apply lookup_insert_eq.
Qed.

(** C5, where the code departs from it.  After [race_schedule] the user
    holds 60 coins, the bet of 40 on message ["m"], and a pending entry for
    the same message.  The stake 30 sent next is refused with
    [DuplicateBetError]; the bet rows and the highest-bet record stay as they
    were, but the balance stored is 30: the debit of the refused bet is
    kept. *)
Theorem duplicate_attempt_keeps_the_debit :
  let st := bot_state (run None race_schedule init_bot) in
  let bet := {| message_id := "m"; user_id := "u"; choice := 1;
                amount := 40; resolved := 0 |} in
  bets (st_db st) = [bet] /\
  users (st_db st) !! "u" = Some 60 /\
  pending_stakes st !! "u" = Some ("m", 2) /\
  parked (run None race_schedule init_bot) = [] /\
  (on_message st "u" (Some 30)).2 = PlaceBetFailed DuplicateBetError /\
  bets (st_db (on_message st "u" (Some 30)).1) = [bet] /\
  highest_bet (st_db (on_message st "u" (Some 30)).1) = highest_bet (st_db st) /\
  users (st_db (on_message st "u" (Some 30)).1) !! "u" = Some 30.
Proof. repeat split; vm_compute; reflexivity. Qed.

(* ===================================================================== *)
(** * Part III: further properties of the handlers                        *)
(* ===================================================================== *)

(** ** The stake message *)

Section StakeMessage.

(** [on_message] by cases, the two reads of the balance written out. *)
Lemma on_message_cases (st : state) (uid : string) (content : option Z) :
  on_message st uid content
  = match pending_stakes st !! uid with
    | None => (st, NoPendingStake)
    | Some (mid, ch) =>
        match content with
        | None => (st, InvalidStakeError)
        | Some amt =>
            let d1 := (get_user_balance (st_db st) uid).1 in
            let bal := balance_of (st_db st) uid in
            if bal <? amt then
              ({| st_db := d1; pending_stakes := pending_stakes st |},
               InsufficientBalanceError bal amt)
            else if amt <? 1 then
              ({| st_db := d1; pending_stakes := pending_stakes st |}, MinimumBetError)
            else
              let d2 := (set_user_balance d1 uid (bal - amt)).1 in
              match place_bet d2 mid uid ch amt with
              | inl e => ({| st_db := d2; pending_stakes := delete uid (pending_stakes st) |},
                          PlaceBetFailed e)
              | inr d3 => ({| st_db := d3; pending_stakes := delete uid (pending_stakes st) |},
                           BetPlaced amt ch)
              end
        end
    end.
Proof.
  unfold on_message, on_message_begin.
  destruct (pending_stakes st !! uid) as [[mid ch]|] eqn:Hp; [| reflexivity].
  destruct content as [amt|]; [| reflexivity].
  unfold on_message_finish.
  cbn [task_user task_amount task_msg_id task_choice st_db pending_stakes].
  rewrite <- balance_of_get.
  assert (Hrestore : <[uid := (mid, ch)]> (delete uid (pending_stakes st)) = pending_stakes st).
  { rewrite insert_delete_eq. apply insert_id, Hp. }
  rewrite Hrestore.
  destruct (get_user_balance (st_db st) uid) as [d1 bal]. cbn [fst snd].
  destruct (bal <? amt); [reflexivity |].
  destruct (amt <? 1); [reflexivity |].
  cbn [set_user_balance fst]. reflexivity.
Qed.

(** X1.  A stake within the balance, sent by a user who is asked for one and
    holds no bet on that message, is placed: the reply confirms it, the row
    with the pending message and choice is appended, the pending entry is
    gone, the other balances are as before, and the balance stored is
    [max(1, balance - stake)], so staking the whole balance leaves 1 coin. *)
Theorem stake_within_balance_is_placed
    (st : state) (uid mid : string) (ch amt : Z) :
  pending_stakes st !! uid = Some (mid, ch) ->
  (mid, uid) ∉ bet_key <$> bets (st_db st) ->
  1 <= amt <= balance_of (st_db st) uid ->
  let st' := (on_message st uid (Some amt)).1 in
  (on_message st uid (Some amt)).2 = BetPlaced amt ch /\
  bets (st_db st')
  = bets (st_db st) ++ [{| message_id := mid; user_id := uid; choice := ch;
                           amount := amt; resolved := 0 |}] /\
  pending_stakes st' = delete uid (pending_stakes st) /\
  users (st_db st') !! uid = Some (Z.max 1 (balance_of (st_db st) uid - amt)) /\
  (amt = balance_of (st_db st) uid -> users (st_db st') !! uid = Some 1) /\
  (forall v, v <> uid -> users (st_db st') !! v = users (st_db st) !! v).
Proof.
  intros Hp Hfresh [Hlo Hhi]. cbv zeta. rewrite on_message_cases, Hp. cbv zeta.
  rewrite (proj2 (Z.ltb_ge _ _) Hhi), (proj2 (Z.ltb_ge _ _) Hlo).
  pose proof (get_user_balance_bets (st_db st) uid) as [Hb Hh].
  pose proof (get_user_balance_users (st_db st) uid) as Hu.
  rewrite place_bet_fresh by (cbn [bets set_user_balance fst]; rewrite Hb; exact Hfresh).
  cbn [fst snd st_db pending_stakes bets users set_user_balance].
  rewrite Hb, Hu. repeat split.
  - apply lookup_insert_eq.
  - intros ->. rewrite lookup_insert_eq. f_equal. unfold Py.int, Py.math_floor. lia.
  - intros v Hv. rewrite !lookup_insert_ne by congruence. reflexivity.
Qed.

Lemma stake_within_balance_is_placed_witness :
  let st := {| st_db := sample_db; pending_stakes := <["a" := ("n", 2)]> ∅ |} in
  let st' := (on_message st "a" (Some 5)).1 in
  (on_message st "a" (Some 5)).2 = BetPlaced 5 2 /\
  bets (st_db st')
  = bets sample_db ++ [{| message_id := "n"; user_id := "a"; choice := 2;
                          amount := 5; resolved := 0 |}] /\
  pending_stakes st' = delete "a" (<["a" := ("n", 2)]> ∅) /\
  users (st_db st') !! "a" = Some (Z.max 1 (balance_of sample_db "a" - 5)) /\
  (5 = balance_of sample_db "a" -> users (st_db st') !! "a" = Some 1) /\
  (forall v, v <> "a" -> users (st_db st') !! v = users sample_db !! v).
Proof.
  refine (stake_within_balance_is_placed
            {| st_db := sample_db; pending_stakes := <["a" := ("n", 2)]> ∅ |} "a" "n" 2 5
            _ _ _).
  - reflexivity.
  - apply (bool_decide_unpack _). vm_compute. exact I.
  - vm_compute. split; discriminate.
Defined.

(** X2.  A stake that is refused before the debit changes nothing but the
    lazy creation of the sender's account: a message from a user who is not
    asked for a stake, or one that is no number, leaves the whole state as
    it was; a stake above the balance or below 1 is answered with its
    error, keeps the pending entry (the user may answer again), the bet
    rows, the highest-bet record and every other balance, and stores for the
    sender the balance a query reports. *)
Theorem refused_stake_keeps_ledger_and_prompt
    (st : state) (uid : string) (content : option Z) :
  let st' := (on_message st uid content).1 in
  let reply := (on_message st uid content).2 in
  (pending_stakes st !! uid = None -> st' = st /\ reply = NoPendingStake) /\
  (is_Some (pending_stakes st !! uid) -> content = None ->
   st' = st /\ reply = InvalidStakeError) /\
  (forall amt, is_Some (pending_stakes st !! uid) -> content = Some amt ->
     balance_of (st_db st) uid < amt \/ amt < 1 ->
     reply = (if balance_of (st_db st) uid <? amt
              then InsufficientBalanceError (balance_of (st_db st) uid) amt
              else MinimumBetError) /\
     pending_stakes st' = pending_stakes st /\
     bets (st_db st') = bets (st_db st) /\
     highest_bet (st_db st') = highest_bet (st_db st) /\
     users (st_db st') !! uid = Some (balance_of (st_db st) uid) /\
     (forall v, v <> uid -> users (st_db st') !! v = users (st_db st) !! v)).
Proof.
  cbv zeta. rewrite on_message_cases. split; [| split].
  - intros Hn. rewrite Hn. split; reflexivity.
  - intros [[mid ch] Hs] ->. rewrite Hs. split; reflexivity.
  - intros amt [[mid ch] Hs] -> Hbad. rewrite Hs. cbv zeta.
    pose proof (get_user_balance_bets (st_db st) uid) as [Hb Hh].
    pose proof (get_user_balance_users (st_db st) uid) as Hu.
    assert (Hcase : (balance_of (st_db st) uid <? amt) = true \/
                    ((balance_of (st_db st) uid <? amt) = false /\ (amt <? 1) = true)).
    { destruct (Z.ltb_spec (balance_of (st_db st) uid) amt); [left; reflexivity |].
      right. split; [reflexivity |]. apply Z.ltb_lt. lia. }
    destruct Hcase as [H1 | [H1 H2]]; rewrite H1, ?H2;
      cbn [fst snd st_db pending_stakes]; rewrite Hb, Hh, Hu;
      (split; [reflexivity |]); (split; [reflexivity |]); (split; [reflexivity |]);
      (split; [reflexivity |]);
      (split; [apply lookup_insert_eq | intros v Hv; apply lookup_insert_ne; congruence]).
Qed.

End StakeMessage.

(** ** Prompts and confirmed bets *)

Section Prompts.

Variable OWNER_ID : option Z.

(** With no flagged row stored, the reaction handler finds a confirmed bet
    exactly when the user has a row on the message. *)
Lemma confirmed_bet_found (d : db) (uid mid : string) :
  unresolved_ok d ->
  (mid, uid) ∈ bet_key <$> bets d <->
  is_Some (find (fun b => bool_decide (user_id b = uid) && (resolved b =? 0))
             (get_bets_for_message d mid)).
Proof.
  intros Hun. split.
  - intros Hin. apply list_elem_of_fmap in Hin as (b & Hk & Hb).
    injection Hk as Hm Hu.
    destruct (find _ _) as [b'|] eqn:Hf; [eauto |]. exfalso.
    pose proof (find_none _ _ Hf b) as Hnone. cbv beta in Hnone.
    unfold unresolved_ok in Hun. rewrite Forall_forall in Hun.
    rewrite (Hun b Hb), bool_decide_eq_true_2 in Hnone by congruence.
    assert (Hget : b ∈ get_bets_for_message d mid) by (apply get_bets_elem; split; congruence).
    apply list_elem_of_In in Hget. specialize (Hnone Hget). discriminate.
  - intros [b Hf]. apply find_some in Hf as [Hin Hp].
    apply list_elem_of_In, get_bets_elem in Hin as [Hin Hm].
    apply andb_true_iff in Hp as [Hu _]. apply bool_decide_eq_true in Hu.
    apply list_elem_of_fmap. exists b. split; [unfold bet_key; congruence | exact Hin].
Qed.

(** The reaction of a user who holds a bet on the message (lines 273-288). *)
Lemma reaction_on_confirmed_bet (st : state) (uid mid : string) (ch : Z) :
  unresolved_ok (st_db st) ->
  (mid, uid) ∈ bet_key <$> bets (st_db st) ->
  on_raw_reaction_add st uid mid ch = st.
Proof.
  intros Hun Hin. unfold on_raw_reaction_add.
  apply (confirmed_bet_found _ _ _ Hun) in Hin as [b ->]. reflexivity.
Qed.

(** The reaction of a user who holds no bet on the message (lines 290-320),
    by the pending entry of the user. *)
Lemma reaction_without_bet (st : state) (uid mid : string) (ch : Z) :
  unresolved_ok (st_db st) ->
  (mid, uid) ∉ bet_key <$> bets (st_db st) ->
  on_raw_reaction_add st uid mid ch
  = match pending_stakes st !! uid with
    | Some (m, _) =>
        if bool_decide (m = mid) then st
        else {| st_db := st_db st;
                pending_stakes := <[uid := (mid, ch)]> (pending_stakes st) |}
    | None => {| st_db := st_db st;
                 pending_stakes := <[uid := (mid, ch)]> (pending_stakes st) |}
    end.
Proof.
  intros Hun Hfresh.
  assert (Hf : find (fun b => bool_decide (user_id b = uid) && (resolved b =? 0))
                 (get_bets_for_message (st_db st) mid) = None).
  { destruct (find _ _) eqn:Hf; [| reflexivity]. exfalso. apply Hfresh.
    apply (confirmed_bet_found _ _ _ Hun). rewrite Hf. eauto. }
  unfold on_raw_reaction_add. rewrite Hf.
  destruct (pending_stakes st !! uid) as [[m c]|]; reflexivity.
Qed.



(** X4.  For a user without a bet on the message: the first reaction asks
    for a stake on it; while that prompt stands, further reactions on the
    same message change nothing (the first choice stays); a reaction on
    another message without a bet of theirs replaces the prompt; and removing
    the reaction of a prompt made from no prompt gives back the state
    before it. *)
Theorem reaction_prompts (st : state) (uid mid : string) (ch : Z) :
  ledger_ok (st_db st) ->
  (mid, uid) ∉ bet_key <$> bets (st_db st) ->
  let st1 := on_raw_reaction_add st uid mid ch in
  (pending_stakes st !! uid = None ->
   pending_stakes st1 !! uid = Some (mid, ch) /\
   on_raw_reaction_remove st1 uid mid = st) /\
  (forall other ch0, other <> mid -> pending_stakes st !! uid = Some (other, ch0) ->
     pending_stakes st1 !! uid = Some (mid, ch)) /\
  (forall ch0, pending_stakes st !! uid = Some (mid, ch0) -> st1 = st) /\
  (forall v, v <> uid -> pending_stakes st1 !! v = pending_stakes st !! v) /\
  st_db st1 = st_db st.
Proof.
  intros (_ & _ & _ & Hun) Hfresh. cbv zeta.
  rewrite (reaction_without_bet st uid mid ch Hun Hfresh).
  split; [| split; [| split; [| split]]].
  - intros Hn. rewrite Hn. cbn [pending_stakes]. split; [apply lookup_insert_eq |].
    unfold on_raw_reaction_remove. cbn [pending_stakes st_db].
    rewrite lookup_insert_eq, bool_decide_eq_true_2 by reflexivity.
    rewrite delete_insert_eq. destruct st as [d p]. cbn [pending_stakes st_db] in *.
    f_equal. apply delete_id, Hn.
  - intros other ch0 Hother Hs. rewrite Hs.
    rewrite bool_decide_eq_false_2 by exact Hother. apply lookup_insert_eq.
  - intros ch0 Hs. rewrite Hs, bool_decide_eq_true_2 by reflexivity. reflexivity.
  - intros v Hv. destruct (pending_stakes st !! uid) as [[m c]|];
      [destruct (bool_decide (m = mid)) |]; cbn [pending_stakes];
      rewrite ?lookup_insert_ne by congruence; reflexivity.
  - destruct (pending_stakes st !! uid) as [[m c]|];
      [destruct (bool_decide (m = mid)) |]; reflexivity.
Qed.

Lemma reaction_prompts_witness :
  let st := {| st_db := sample_db; pending_stakes := ∅ |} in
  let st1 := on_raw_reaction_add st "d" "m" 2 in
  (pending_stakes st !! "d" = None ->
   pending_stakes st1 !! "d" = Some ("m", 2) /\
   on_raw_reaction_remove st1 "d" "m" = st) /\
  (forall other ch0, other <> "m" -> pending_stakes st !! "d" = Some (other, ch0) ->
     pending_stakes st1 !! "d" = Some ("m", 2)) /\
  (forall ch0, pending_stakes st !! "d" = Some ("m", ch0) -> st1 = st) /\
  (forall v, v <> "d" -> pending_stakes st1 !! v = pending_stakes st !! v) /\
  st_db st1 = st_db st.
Proof.
  refine (reaction_prompts {| st_db := sample_db; pending_stakes := ∅ |} "d" "m" 2 _ _).
  - exact sample_db_ok.
  - apply (bool_decide_unpack _). vm_compute. exact I.
Defined.

(** *** Handlers run one at a time *)

Lemma filter_all (l : list bet_row) :
  l = filter (fun b => (fun _ : bet_row => true) b = true) l.
Proof.
  induction l as [|b l IH]; [reflexivity |].
  rewrite filter_cons, decide_True by reflexivity. congruence.
Qed.

Lemma filter_other_events (l : list bet_row) (mid : string) :
  filter (fun b => message_id b ≠ mid) l
  = filter (fun b => negb (bool_decide (message_id b = mid)) = true) l.
Proof.
  induction l as [|b l IH]; [reflexivity |].
  rewrite !filter_cons, IH.
  destruct (decide (message_id b = mid)) as [Hm | Hm].
  - rewrite decide_False by tauto.
    rewrite decide_False; [reflexivity |].
    rewrite bool_decide_eq_true_2 by exact Hm. discriminate.
  - rewrite decide_True by exact Hm.
    rewrite decide_True; [reflexivity |].
    rewrite bool_decide_eq_false_2 by exact Hm. reflexivity.
Qed.

(** Whatever [/resolve] answers, the rows it leaves are rows that were
    there, in their order. *)
Lemma cmd_resolve_bets (i : interaction) (g : guild) (d : db) (mid : string)
    (winning_choice : Z) :
  exists P : bet_row -> bool,
    bets (cmd_resolve OWNER_ID i g d mid winning_choice).1
    = filter (fun b => P b = true) (bets d).
Proof.
  unfold cmd_resolve.
  destruct (resolve_guards OWNER_ID i g mid winning_choice) as [r | msg];
    [exists (fun _ => true); apply filter_all |].
  unfold settle.
  destruct (get_bets_for_message d (msg_id msg)) as [|b0 bs0];
    [exists (fun _ => true); apply filter_all |].
  destruct (existsb _ _); [exists (fun _ => true); apply filter_all |].
  pose proof (pay_bets_frame winning_choice
                (total_for winning_choice (b0 :: bs0))
                (total_against winning_choice (b0 :: bs0)) (b0 :: bs0) d []) as Hfr.
  cbv zeta in Hfr.
  destruct (pay_bets _ _ _ (b0 :: bs0) d []) as [d1 [e | rs]];
    cbn [fst] in *; destruct Hfr as (Hb & _ & _).
  - exists (fun _ => true). rewrite Hb. apply filter_all.
  - exists (fun b => negb (bool_decide (message_id b = msg_id msg))).
    rewrite delete_marked_bets, Hb. apply filter_other_events.
Qed.

Lemma pending_consistent_shrink (st : state) (d' : db) (P : bet_row -> bool) :
  pending_consistent st ->
  bets d' = filter (fun b => P b = true) (bets (st_db st)) ->
  pending_consistent (with_db st d').
Proof.
  intros Hpc Hb uid mid ch Hp Hin. apply (Hpc uid mid ch Hp).
  cbn [with_db st_db] in Hin. rewrite Hb in Hin.
  apply list_elem_of_fmap in Hin as (b & Hk & Hin).
  apply list_elem_of_filter in Hin as [_ Hin].
  apply list_elem_of_fmap. eauto.
Qed.

Lemma pending_consistent_same_bets (st : state) (d' : db) :
  pending_consistent st -> bets d' = bets (st_db st) ->
  pending_consistent (with_db st d').
Proof.
  intros Hpc Hb uid mid ch Hp. cbn [with_db st_db]. rewrite Hb. exact (Hpc uid mid ch Hp).
Qed.

Lemma on_message_ledger (st : state) (uid : string) (content : option Z) :
  ledger_ok (st_db st) -> ledger_ok (st_db (on_message st uid content).1).
Proof.
  intros Hok. unfold on_message.
  pose proof (on_message_begin_db st uid content) as Hdb.
  destruct (on_message_begin st uid content) as [st1 [r | t]]; cbn [fst] in *.
  - rewrite Hdb. exact Hok.
  - apply on_message_finish_ledger. rewrite Hdb. exact Hok.
Qed.

Lemma handle_ledger (st : state) (c : command) :
  ledger_ok (st_db st) -> ledger_ok (st_db (handle OWNER_ID st c)).
Proof.
  intros Hok. destruct c; cbn [handle with_db st_db].
  - apply get_user_balance_ledger, Hok.
  - apply cmd_addcoins_ledger, Hok.
  - apply cmd_resolve_ledger, Hok.
  - rewrite on_raw_reaction_add_db. exact Hok.
  - rewrite on_raw_reaction_remove_db. exact Hok.
  - apply on_message_ledger, Hok.
Qed.

Lemma on_message_consistent (st : state) (uid : string) (content : option Z) :
  pending_consistent st -> pending_consistent (on_message st uid content).1.
Proof.
  intros Hpc. rewrite on_message_cases.
  destruct (pending_stakes st !! uid) as [[mid ch]|] eqn:Hp; [| exact Hpc].
  destruct content as [amt|]; [| exact Hpc]. cbv zeta.
  pose proof (get_user_balance_bets (st_db st) uid) as [Hb _].
  destruct (_ <? amt);
    [apply (pending_consistent_same_bets st _ Hpc Hb) |].
  destruct (amt <? 1);
    [apply (pending_consistent_same_bets st _ Hpc Hb) |].
  pose proof (Hpc uid mid ch Hp) as Hfresh.
  rewrite place_bet_fresh by (cbn [bets set_user_balance fst]; rewrite Hb; exact Hfresh).
  cbn [fst]. intros u m c Hu. cbn [pending_stakes st_db bets set_user_balance fst] in *.
  rewrite Hb, fmap_app, elem_of_app.
  destruct (decide (u = uid)) as [-> | Hne].
  - rewrite lookup_delete_eq in Hu. discriminate.
  - rewrite lookup_delete_ne in Hu by congruence.
    intros [Hin | Hin]; [exact (Hpc u m c Hu Hin) |].
    cbn in Hin. apply list_elem_of_singleton in Hin. unfold bet_key in Hin. cbn in Hin.
    congruence.
Qed.

Lemma handle_consistent (st : state) (c : command) :
  ledger_ok (st_db st) -> pending_consistent st ->
  pending_consistent (handle OWNER_ID st c).
Proof.
  intros Hok Hpc. destruct c; cbn [handle].
  - apply (pending_consistent_same_bets st _ Hpc), get_user_balance_bets.
  - apply (pending_consistent_same_bets st _ Hpc).
    rewrite cmd_addcoins_db. destruct (addcoins_allowed OWNER_ID i); [| reflexivity].
    apply adjust_bets.
  - destruct (cmd_resolve_bets i g (st_db st) mid winning_choice) as [P HP].
    apply (pending_consistent_shrink st _ P Hpc HP).
  - pose proof Hok as (_ & _ & _ & Hun).
    destruct (decide ((mid, uid) ∈ bet_key <$> bets (st_db st))) as [Hin | Hfresh].
    + rewrite (reaction_on_confirmed_bet st uid mid ch Hun Hin). exact Hpc.
    + rewrite (reaction_without_bet st uid mid ch Hun Hfresh).
      assert (Hins : pending_consistent
                {| st_db := st_db st;
                   pending_stakes := <[uid := (mid, ch)]> (pending_stakes st) |}).
      { intros u m c Hu. cbn [pending_stakes st_db] in *.
        destruct (decide (u = uid)) as [-> | Hne].
        - rewrite lookup_insert_eq in Hu. injection Hu as <- <-. exact Hfresh.
        - rewrite lookup_insert_ne in Hu by congruence. exact (Hpc u m c Hu). }
      destruct (pending_stakes st !! uid) as [[m0 c0]|];
        [destruct (bool_decide (m0 = mid)) |]; assumption.
  - unfold on_raw_reaction_remove.
    destruct (pending_stakes st !! uid) as [[m c]|] eqn:Hs; [| exact Hpc].
    destruct (bool_decide (m = mid)); [| exact Hpc].
    intros u m' c' Hu. cbn [pending_stakes st_db] in *.
    destruct (decide (u = uid)) as [-> | Hne].
    + rewrite lookup_delete_eq in Hu. discriminate.
    + rewrite lookup_delete_ne in Hu by congruence. exact (Hpc u m' c' Hu).
  - apply on_message_consistent, Hpc.
Qed.

Lemma handle_all_invariants (cs : list command) (st : state) :
  ledger_ok (st_db st) -> pending_consistent st ->
  ledger_ok (st_db (handle_all OWNER_ID cs st)) /\
  pending_consistent (handle_all OWNER_ID cs st).
Proof.
  revert st. induction cs as [|c cs IH]; intros st Hok Hpc; [split; assumption |].
  cbn [handle_all foldl]. apply IH; [apply handle_ledger | apply handle_consistent]; assumption.
Qed.

(** X5.  When the handlers run one at a time from the empty database,
    nobody is ever asked for a stake on a message they already bet on, and so
    no stake message is ever refused by [place_bet]: whatever is sent next, by
    whom, the reply is not the duplicate-bet error. *)
Theorem sequential_runs_never_refuse_a_duplicate
    (cs : list command) (uid : string) (content : option Z) (e : exn) :
  let st := handle_all OWNER_ID cs init_state in
  pending_consistent st /\
  (on_message st uid content).2 <> PlaceBetFailed e.
Proof.
  cbv zeta.
  destruct (handle_all_invariants cs init_state init_ledger_ok) as [Hok Hpc].
  { intros u m c Hu. cbn in Hu. rewrite lookup_empty in Hu. discriminate. }
  split; [exact Hpc |]. rewrite on_message_cases.
  destruct (pending_stakes _ !! uid) as [[mid ch]|] eqn:Hp; [| discriminate].
  destruct content as [amt|]; [| discriminate]. cbv zeta.
  destruct (_ <? amt); [discriminate |].
  destruct (amt <? 1); [discriminate |].
  pose proof (get_user_balance_bets (st_db (handle_all OWNER_ID cs init_state)) uid) as [Hb _].
  rewrite place_bet_fresh
    by (cbn [bets set_user_balance fst]; rewrite Hb; exact (Hpc uid mid ch Hp)).
  discriminate.
Qed.

End Prompts.

(** ** Every resolution *)

Section EveryResolution.

(** The odds of lines 471-475 on any pot: computed without an exception, and
    neither below [0.25] nor above [1.0]. *)
Lemma odds_of_bounds (total_winning total_losing : Z) :
  0 <= total_winning -> 0 <= total_losing < 2 ^ 1023 ->
  exists odds,
    odds_of total_winning total_losing = inr odds /\
    Py.float_lt odds Py.float_0_25 = false /\
    Py.float_lt Py.float_1_0 odds = false /\
    exists m e, odds = S754_finite false m e /\ Zpos (digits2_pos m) <= 53 /\ e <= -52.
Proof.
  intros HW [HL0 HL]. unfold odds_of.
  destruct (Z.eqb_spec total_winning 0) as [-> | HW0].
  { exists Py.float_1_0. repeat split.
    exists 4503599627370496%positive, (-52). repeat split; cbn; lia. }
  destruct (Z.eqb_spec total_losing 0) as [-> | HL1].
  { exists Py.float_1_0. repeat split.
    exists 4503599627370496%positive, (-52). repeat split; cbn; lia. }
  cbn [orb].
  destruct (int_truediv_small total_losing total_winning ltac:(lia) ltac:(lia))
    as (r & Hr & Hsr).
  destruct (odds_clamp r Hsr) as [Hclamp Hodds]. cbv zeta in Hclamp, Hodds.
  rewrite Hr. cbn [bind ret].
  eexists. split; [reflexivity |]. split; [| split; [| exact Hodds]].
  - rewrite Hclamp. unfold clamp.
    destruct (Py.float_lt r Py.float_0_25) eqn:H1; [reflexivity |].
    destruct (Py.float_lt Py.float_1_0 r) eqn:H2; [reflexivity | exact H1].
  - rewrite Hclamp. unfold clamp.
    destruct (Py.float_lt r Py.float_0_25) eqn:H1; [reflexivity |].
    destruct (Py.float_lt Py.float_1_0 r) eqn:H2; [reflexivity | exact H2].
Qed.

(** The payout on any pot: computed without an exception, and at least
    the stake. *)
Lemma payout_of_total (amt total_winning total_losing : Z) :
  0 < amt < 2 ^ 1021 -> 0 <= total_winning -> 0 <= total_losing < 2 ^ 1023 ->
  exists p, payout_of amt total_winning total_losing = inr p /\ amt <= p.
Proof.
  intros Ha HW HL.
  destruct (odds_of_bounds total_winning total_losing HW HL) as (odds & Ho & _ & _ & Hform).
  destruct (float_of_int_small amt Ha) as (fa & Hfa & Hsa).
  pose proof (float_mul_small fa odds Hsa Hform) as Hprod.
  destruct (int_of_float_small _ _ Hprod) as (w & Hw & _ & Hw0).
  exists (amt + w). unfold payout_of, Py.int_mul_float.
  rewrite Ho. cbn [bind]. rewrite Hfa. cbn [bind ret]. rewrite Hw. cbn [bind ret].
  split; [reflexivity | lia].
Qed.

Lemma totals_in_range (winning_choice : Z) (bs : list bet_row) :
  Forall (fun b => 1 <= amount b) bs ->
  0 <= total_for winning_choice bs <= sum_amounts bs /\
  0 <= total_against winning_choice bs <= sum_amounts bs.
Proof.
  intros Hst.
  assert (Hsub : forall (P : bet_row -> Prop) `{forall b, Decision (P b)},
             Forall (fun b => 1 <= amount b) (filter P bs)).
  { intros P HP. rewrite Forall_forall in *. intros b Hb.
    apply list_elem_of_filter in Hb as [_ Hb]. auto. }
  unfold total_for, total_against. split; split.
  - apply sum_amounts_nonneg, Hsub.
  - apply (sum_filter_le (fun b => choice b = winning_choice)), Hst.
  - apply sum_amounts_nonneg, Hsub.
  - apply (sum_filter_le (fun b => choice b ≠ winning_choice)), Hst.
Qed.

Lemma paid_at_least_stake_all (winning_choice total_winning total_losing : Z)
    (d d' : db) (bs : list bet_row) (rs : list result_row) :
  0 <= total_winning -> 0 <= total_losing < 2 ^ 1023 ->
  Forall (fun b => 0 < amount b < 2 ^ 1021) bs ->
  Forall2 (paid_as winning_choice total_winning total_losing d d') bs rs ->
  Forall2 (fun b r => paid_as winning_choice total_winning total_losing d d' b r /\
                      (choice b = winning_choice -> amount b <= payout r)) bs rs.
Proof.
  intros HW HL Hall H2. induction H2 as [|b r bs rs Hbr _ IH]; [constructor |].
  apply Forall_cons in Hall as [Hb Hall]. constructor; [| auto].
  split; [exact Hbr |]. intros Hc.
  unfold paid_as in Hbr. rewrite bool_decide_eq_true_2 in Hbr by exact Hc.
  destruct Hbr as (_ & _ & _ & Hp & _).
  destruct (payout_of_total (amount b) total_winning total_losing Hb HW HL) as (p & Hp' & Hle).
  congruence.
Qed.

(** X6.  On a ledger the bot can be in, with a pot below [2 ^ 1021] coins
    and credits the [INTEGER] column holds, the database part of [/resolve]
    (lines 448-493: from the read of the bets to their deletion) runs to its
    end once the checks are passed, whichever choice is declared and however
    the stakes are split: neither the odds nor a payout raises, there is
    one result per bet, in order; every bettor on the declared choice is paid
    at least the stake and finds the payout added to the balance, every other
    bettor is paid 0 and keeps the balance stored.  The summary that is sent
    afterwards is outside this statement. *)
Theorem resolution_goes_through
    (OWNER_ID : option Z) (i : interaction) (g : guild) (d : db)
    (mid : string) (winning_choice : Z) (msg : message) :
  resolve_guards OWNER_ID i g mid winning_choice = inr msg ->
  ledger_ok d ->
  let bs := get_bets_for_message d (msg_id msg) in
  let total_winning := total_for winning_choice bs in
  let total_losing := total_against winning_choice bs in
  bs <> [] -> sum_amounts bs < 2 ^ 1021 ->
  Forall (credit_fits winning_choice total_winning total_losing d) bs ->
  exists d' results,
    cmd_resolve OWNER_ID i g d mid winning_choice
    = (d', Resolved total_winning total_losing results) /\
    Forall2 (fun b r => paid_as winning_choice total_winning total_losing d d' b r /\
                        (choice b = winning_choice -> amount b <= payout r)) bs results.
Proof.
  intros Hg Hok bs total_winning total_losing Hne Hpot _.
  pose proof Hok as (_ & _ & Hstakes & _).
  pose proof (stakes_of_message d (msg_id msg) Hstakes) as Hst. fold bs in Hst.
  assert (Hrange : Forall (fun b => 0 < amount b < 2 ^ 1021) bs).
  { rewrite Forall_forall in *. intros b Hb.
    pose proof (amount_le_sum bs b (proj2 (Forall_forall _ _) Hst) Hb).
    specialize (Hst b Hb). cbv beta in Hst. lia. }
  destruct (totals_in_range winning_choice bs Hst) as [[HW0 HW1] [HL0 HL1]].
  fold total_winning in HW0, HW1. fold total_losing in HL0, HL1.
  assert (HL : 0 <= total_losing < 2 ^ 1023).
  { assert (2 ^ 1021 <= 2 ^ 1023) by (apply Z.pow_le_mono_r; lia). lia. }
  assert (Hpay : Forall (fun b => choice b = winning_choice ->
            exists p, payout_of (amount b) total_winning total_losing = inr p /\ 0 <= p) bs).
  { rewrite Forall_forall in *. intros b Hb _.
    destruct (payout_of_total (amount b) total_winning total_losing (Hrange b Hb) HW0 HL)
      as (p & Hp & Hle).
    exists p. split; [exact Hp |]. specialize (Hrange b Hb). cbv beta in Hrange. lia. }
  destruct (settle_ok d (msg_id msg) winning_choice Hok Hne Hpay)
    as (d' & rs & Heq & Hall & _).
  exists d', rs. split.
  - unfold cmd_resolve. rewrite Hg. exact Heq.
  - apply paid_at_least_stake_all; assumption.
Qed.

Lemma resolution_goes_through_witness :
  exists d' results,
    cmd_resolve None sample_author sample_guild one_sided_db "m" 1
    = (d', Resolved 300 0 results) /\
    Forall2 (fun b r => paid_as 1 300 0 one_sided_db d' b r /\
                        (choice b = 1 -> amount b <= payout r))
      [sample_bet "a" 1 30; sample_bet "b" 1 270] results.
Proof.
  refine (resolution_goes_through None sample_author sample_guild
            one_sided_db "m" 1 sample_message _ _ _ _ _).
  - reflexivity.
  - exact one_sided_db_ok.
  - discriminate.
  - reflexivity.
  - repeat (apply Forall_cons_2;
            [intros _ p Hp; vm_compute in Hp; try discriminate Hp;
             injection Hp as <-; vm_compute; discriminate |]).
    apply Forall_nil_2.
Defined.

Lemma pay_bets_all_lost (winning_choice total_winning total_losing : Z)
    (bs : list bet_row) :
  Forall (fun b => choice b <> winning_choice) bs ->
  forall (d : db) (acc : list result_row),
    pay_bets winning_choice total_winning total_losing bs d acc
    = (d, inr (acc ++ (lost_row <$> bs))).
Proof.
  induction 1 as [|b bs Hb _ IH]; intros d acc.
  - cbn. rewrite app_nil_r. reflexivity.
  - rewrite pay_bets_lost by exact Hb. rewrite IH, <- app_assoc. reflexivity.
Qed.

Lemma filter_none (P : bet_row -> Prop) `{forall b, Decision (P b)} (bs : list bet_row) :
  Forall (fun b => ~ P b) bs -> filter P bs = [].
Proof.
  induction 1 as [|b bs Hb _ IH]; [reflexivity |].
  rewrite filter_cons, decide_False by exact Hb. exact IH.
Qed.

(** X7.  When nobody bet on the declared choice, the resolution still goes
    through: the totals are 0 for the winner and the whole pot for the
    loser, every bettor is reported as lost with payout 0, no balance and no
    account changes, and the rows of the event are deleted: the stakes are
    gone. *)
Theorem resolution_without_winners
    (OWNER_ID : option Z) (i : interaction) (g : guild) (d : db)
    (mid : string) (winning_choice : Z) (msg : message) :
  resolve_guards OWNER_ID i g mid winning_choice = inr msg ->
  ledger_ok d ->
  let bs := get_bets_for_message d (msg_id msg) in
  bs <> [] -> Forall (fun b => choice b <> winning_choice) bs ->
  exists d',
    cmd_resolve OWNER_ID i g d mid winning_choice
    = (d', Resolved 0 (sum_amounts bs) (lost_row <$> bs)) /\
    users d' = users d /\
    highest_bet d' = highest_bet d /\
    bets d' = filter (fun b => message_id b ≠ msg_id msg) (bets d).
Proof.
  intros Hg (_ & _ & _ & Hun) bs Hne Hlost.
  assert (HW : total_for winning_choice bs = 0).
  { unfold total_for. rewrite filter_none; [reflexivity |].
    rewrite Forall_forall in *. intros b Hb. apply Hlost, Hb. }
  assert (HL : total_against winning_choice bs = sum_amounts bs).
  { unfold total_against. f_equal.
    clear HW Hne. induction Hlost as [|b l Hb _ IH]; [reflexivity |].
    rewrite filter_cons, decide_True by exact Hb. f_equal. exact IH. }
  exists (delete_bets (mark_bets_resolved d (msg_id msg)) (msg_id msg)).
  split; [| split; [reflexivity | split; [reflexivity | apply delete_marked_bets]]].
  unfold cmd_resolve. rewrite Hg. unfold settle. fold bs.
  pose proof (unresolved_of_message d (msg_id msg) Hun) as Hex. fold bs in Hex.
  rewrite Hex, (pay_bets_all_lost _ _ _ bs Hlost), HW, HL. cbn [app].
  destruct bs; [congruence | reflexivity].
Qed.

Lemma resolution_without_winners_witness :
  exists d',
    cmd_resolve None sample_author sample_guild one_sided_db "m" 2
    = (d', Resolved 0 300 (lost_row <$> [sample_bet "a" 1 30; sample_bet "b" 1 270])) /\
    users d' = users one_sided_db /\
    highest_bet d' = highest_bet one_sided_db /\
    bets d' = filter (fun b => message_id b ≠ "m") (bets one_sided_db).
Proof.
  refine (resolution_without_winners None sample_author sample_guild
            one_sided_db "m" 2 sample_message _ _ _ _).
  - reflexivity.
  - exact one_sided_db_ok.
  - discriminate.
  - repeat (apply Forall_cons_2; [cbn; lia |]). apply Forall_nil_2.
Defined.

End EveryResolution.

(** ** The highest-bet record along every run *)

Section Record.

Variable OWNER_ID : option Z.

Lemma cmd_resolve_highest (i : interaction) (g : guild) (d : db) (mid : string)
    (winning_choice : Z) :
  highest_bet (cmd_resolve OWNER_ID i g d mid winning_choice).1 = highest_bet d.
Proof.
  unfold cmd_resolve.
  destruct (resolve_guards OWNER_ID i g mid winning_choice) as [r | msg]; [reflexivity |].
  unfold settle.
  destruct (get_bets_for_message d (msg_id msg)) as [|b0 bs0]; [reflexivity |].
  destruct (existsb _ _); [reflexivity |].
  pose proof (pay_bets_frame winning_choice
                (total_for winning_choice (b0 :: bs0))
                (total_against winning_choice (b0 :: bs0)) (b0 :: bs0) d []) as Hfr.
  cbv zeta in Hfr.
  destruct (pay_bets _ _ _ (b0 :: bs0) d []) as [d1 [e | rs]];
    cbn [fst] in *; destruct Hfr as (_ & Hh & _); exact Hh.
Qed.

(** A handler that only drops rows and leaves the record alone. *)
Lemma handler_keeps_record (d d' : db) :
  (exists P : bet_row -> bool, bets d' = filter (fun b => P b = true) (bets d)) ->
  highest_bet d' = highest_bet d ->
  (record_dominates d -> record_dominates d') /\
  record_le (highest_amount d) (highest_amount d').
Proof.
  intros [P Hb] Hh. split.
  - unfold record_dominates. rewrite Hh, Hb.
    destruct (highest_bet d) as [h|].
    + rewrite !Forall_forall. intros Hd b Hin.
      apply list_elem_of_filter in Hin as [_ Hin]. auto.
    + intros ->. reflexivity.
  - unfold highest_amount. rewrite Hh. apply record_le_refl.
Qed.

Lemma same_rows_keep_record (d d' : db) :
  bets d' = bets d -> highest_bet d' = highest_bet d ->
  (record_dominates d -> record_dominates d') /\
  record_le (highest_amount d) (highest_amount d').
Proof.
  intros Hb Hh. apply handler_keeps_record; [| exact Hh].
  exists (fun _ => true). rewrite Hb. apply filter_all.
Qed.

Lemma place_bet_dominates (d d' : db) (mid uid : string) (ch amt : Z) :
  record_dominates d -> place_bet d mid uid ch amt = inr d' -> record_dominates d'.
Proof.
  intros Hd Hp. pose proof (place_bet_inv _ _ _ _ _ _ Hp) as Hfresh.
  rewrite (place_bet_fresh _ _ _ ch amt Hfresh) in Hp. injection Hp as <-.
  unfold record_dominates, highest_amount in *. cbn [highest_bet bets].
  destruct (highest_bet d) as [h|] eqn:Hh; cbn [fmap option_fmap option_map].
  - destruct (Z.ltb_spec (hb_amount h) amt) as [Hlt | Hge].
    + cbn [hb_amount]. apply Forall_app. split.
      * eapply Forall_impl; [exact Hd |]. intros b Hb. cbv beta in *. lia.
      * apply Forall_singleton. cbn. lia.
    + apply Forall_app. split; [exact Hd |].
      apply Forall_singleton. cbn. lia.
  - rewrite Hd. cbn. apply Forall_singleton. cbn. lia.
Qed.

Lemma on_message_finish_record (st : state) (t : dm_task) :
  (record_dominates (st_db st) -> record_dominates (st_db (on_message_finish st t).1)) /\
  record_le (highest_amount (st_db st)) (highest_amount (st_db (on_message_finish st t).1)).
Proof.
  unfold on_message_finish.
  pose proof (get_user_balance_bets (st_db st) (task_user t)) as [Hb1 Hh1].
  destruct (get_user_balance (st_db st) (task_user t)) as [d1 bal]. cbn [fst] in *.
  pose proof (same_rows_keep_record (st_db st) d1 Hb1 Hh1) as H1.
  destruct (bal <? task_amount t); [exact H1 |].
  destruct (task_amount t <? 1); [exact H1 |].
  pose proof (set_user_balance_bets d1 (task_user t) (bal - task_amount t)) as [Hb2 Hh2].
  destruct (set_user_balance d1 (task_user t) (bal - task_amount t)) as [d2 s].
  cbn [fst] in *.
  assert (H2 : (record_dominates (st_db st) -> record_dominates d2) /\
               record_le (highest_amount (st_db st)) (highest_amount d2)).
  { apply same_rows_keep_record; congruence. }
  destruct (place_bet d2 _ _ _ _) as [e | d3] eqn:Hp; [exact H2 |].
  cbn [fst st_db]. destruct H2 as [H2 H2']. split.
  - intros Hd. eapply place_bet_dominates; [apply H2, Hd | exact Hp].
  - eapply record_le_trans; [exact H2' |]. eapply place_bet_record_le. exact Hp.
Qed.

Lemma step_record (b : bot) (ev : event) :
  (record_dominates (st_db (bot_state b)) ->
   record_dominates (st_db (bot_state (step OWNER_ID b ev)))) /\
  record_le (highest_amount (st_db (bot_state b)))
    (highest_amount (st_db (bot_state (step OWNER_ID b ev)))).
Proof.
  destruct ev; cbn [step].
  - cbn [bot_state with_db st_db]. apply same_rows_keep_record; apply get_user_balance_bets.
  - cbn [bot_state with_db st_db]. rewrite cmd_addcoins_db.
    destruct (addcoins_allowed OWNER_ID i); cbn [fst];
      apply same_rows_keep_record; try reflexivity; apply adjust_bets.
  - cbn [bot_state with_db st_db].
    apply handler_keeps_record; [apply cmd_resolve_bets | apply cmd_resolve_highest].
  - cbn [bot_state]. rewrite on_raw_reaction_add_db.
    apply same_rows_keep_record; reflexivity.
  - cbn [bot_state]. rewrite on_raw_reaction_remove_db.
    apply same_rows_keep_record; reflexivity.
  - pose proof (on_message_begin_db (bot_state b) uid content) as Hdb.
    destruct (on_message_begin (bot_state b) uid content) as [st1 [r | t]];
      cbn [fst bot_state] in *; rewrite Hdb; apply same_rows_keep_record; reflexivity.
  - destruct (parked b !! n) as [t|]; [| apply same_rows_keep_record; reflexivity].
    cbn [bot_state]. apply on_message_finish_record.
  - destruct (cmd_resolve_begin OWNER_ID i g _ mid winning_choice);
      apply same_rows_keep_record; reflexivity.
  - destruct (resolving b !! n) as [t|]; [| apply same_rows_keep_record; reflexivity].
    cbn [bot_state with_db st_db].
    destruct (cmd_resolve_finish_frame (st_db (bot_state b)) t) as ([Hb | Hb] & Hh & _).
    + apply same_rows_keep_record; assumption.
    + apply handler_keeps_record; [| exact Hh].
      exists (fun b => negb (bool_decide (message_id b = rt_message t))).
      rewrite Hb. apply filter_other_events.
Qed.

Lemma run_record (evs : list event) (b : bot) :
  (record_dominates (st_db (bot_state b)) ->
   record_dominates (st_db (bot_state (run OWNER_ID evs b)))) /\
  record_le (highest_amount (st_db (bot_state b)))
    (highest_amount (st_db (bot_state (run OWNER_ID evs b)))).
Proof.
  revert b. induction evs as [|ev evs IH]; intros b.
  - split; [tauto | apply record_le_refl].
  - cbn [run foldl]. destruct (step_record b ev) as [H1 H1'].
    destruct (IH (step OWNER_ID b ev)) as [H2 H2']. split; [tauto |].
    eapply record_le_trans; eassumption.
Qed.

(** X8.  In every state the bot reaches from the empty database, by any
    interleaving of its handlers, [/highestbet] answers that no bet was
    placed only when no bet row is stored, and otherwise shows an amount
    that no stored stake exceeds. *)
Theorem highest_bet_covers_every_open_bet (evs : list event) :
  let d := st_db (bot_state (run OWNER_ID evs init_bot)) in
  match cmd_highestbet d with
  | NoBetsPlacedYet => bets d = []
  | HighestBetEver _ _ _ amt => Forall (fun b => amount b <= amt) (bets d)
  end.
Proof.
  cbv zeta. destruct (run_record evs init_bot) as [H _].
  specialize (H eq_refl). unfold record_dominates in H. unfold cmd_highestbet.
  destruct (highest_bet _); exact H.
Qed.

(** X9.  No handler ever lowers or clears the highest-bet record: along any
    run of the bot, from any state, the recorded amount only grows.  In
    particular a resolution, which deletes the rows of its event, keeps the
    record. *)
Theorem record_never_decreases (evs : list event) (b : bot) :
  record_le (highest_amount (st_db (bot_state b)))
    (highest_amount (st_db (bot_state (run OWNER_ID evs b)))).
Proof. apply run_record. Qed.

End Record.

(** ** The live board *)

Section LiveBoard.

Lemma livebets_loop_spec (bs : list bet_row) :
  forall (lines : list livebets_line) (total_team1 total_team2 : Z),
    livebets_loop bs lines total_team1 total_team2
    = (lines ++ ((fun b => {| line_user := user_id b; line_amount := amount b;
                              line_team := if choice b =? 1 then 1 else 2 |}) <$> bs),
       total_team1 + total_for 1 bs, total_team2 + total_against 1 bs).
Proof.
  induction bs as [|b rest IH]; intros lines t1 t2; cbn [livebets_loop].
  - unfold total_for, total_against. cbn. rewrite app_nil_r, !Z.add_0_r. reflexivity.
  - unfold total_for, total_against in *. rewrite !filter_cons, fmap_cons.
    destruct (Z.eqb_spec (choice b) 1) as [Hc | Hc]; rewrite IH, <- app_assoc; cbn [app].
    + rewrite decide_True, decide_False by tauto. rewrite sum_amounts_cons.
      rewrite !Z.add_assoc. reflexivity.
    + rewrite decide_False, decide_True by tauto. rewrite sum_amounts_cons.
      rewrite !Z.add_assoc. reflexivity.
Qed.

Lemma totals_split (winning_choice : Z) (bs : list bet_row) :
  total_for winning_choice bs + total_against winning_choice bs = sum_amounts bs.
Proof.
  unfold total_for, total_against. induction bs as [|b rest IH]; [reflexivity |].
  rewrite !filter_cons, sum_amounts_cons.
  destruct (decide (choice b = winning_choice)) as [Hc | Hc].
  - rewrite decide_False by tauto. rewrite sum_amounts_cons. lia.
  - rewrite decide_True by tauto. rewrite sum_amounts_cons. lia.
Qed.

Lemma totals_two_sided (bs : list bet_row) :
  Forall (fun b => choice b = 1 \/ choice b = 2) bs ->
  total_for 2 bs = total_against 1 bs /\ total_against 2 bs = total_for 1 bs.
Proof.
  unfold total_for, total_against. induction 1 as [|b rest Hb _ [IH1 IH2]]; [split; reflexivity |].
  rewrite !filter_cons.
  destruct Hb as [Hb | Hb]; rewrite Hb.
  - rewrite (decide_False (P := 1 = 2)) by lia.
    rewrite (decide_False (P := 1 ≠ 1)) by tauto.
    rewrite (decide_True (P := 1 ≠ 2)) by lia.
    rewrite (decide_True (P := 1 = 1)) by reflexivity.
    rewrite !sum_amounts_cons. split; congruence.
  - rewrite (decide_True (P := 2 = 2)) by reflexivity.
    rewrite (decide_True (P := 2 ≠ 1)) by lia.
    rewrite (decide_False (P := 2 ≠ 2)) by tauto.
    rewrite (decide_False (P := 2 = 1)) by lia.
    rewrite !sum_amounts_cons. split; congruence.
Qed.

(** X10.  [/livebets] answers that there is no bet exactly when the message
    has no row; otherwise the board lists the rows of the message in their
    order, each with its user and its stake, on team 1 when the choice is 1
    and on team 2 otherwise; the two totals are the sums of the stakes on
    choice 1 and on the other choices, they add up to the whole pot, and when
    every choice is 1 or 2 they are the winning and the losing total a
    resolution of the message would report, for either declared choice. *)
Theorem livebets_board_totals (d : db) (mid : string) :
  let bs := get_bets_for_message d mid in
  match cmd_livebets d mid with
  | NoBetsYet => bs = []
  | Betboard lines total_team1 total_team2 =>
      bs <> [] /\
      line_user <$> lines = user_id <$> bs /\
      line_amount <$> lines = amount <$> bs /\
      line_team <$> lines = (fun b => if choice b =? 1 then 1 else 2) <$> bs /\
      total_team1 = total_for 1 bs /\
      total_team2 = total_against 1 bs /\
      total_team1 + total_team2 = sum_amounts bs /\
      (Forall (fun b => choice b = 1 \/ choice b = 2) bs ->
       total_team2 = total_for 2 bs /\ total_team1 = total_against 2 bs)
  end.
Proof.
  cbv zeta. unfold cmd_livebets.
  destruct (get_bets_for_message d mid) as [|b0 bs0] eqn:Hbs; [reflexivity |].
  rewrite livebets_loop_spec. cbn [app]. rewrite !Z.add_0_l.
  split; [discriminate |].
  split; [rewrite <- list_fmap_compose; reflexivity |].
  split; [rewrite <- list_fmap_compose; reflexivity |].
  split; [rewrite <- list_fmap_compose; reflexivity |].
  split; [reflexivity |]. split; [reflexivity |].
  split; [apply totals_split |].
  intros Hall. destruct (totals_two_sided _ Hall) as [-> ->]. split; reflexivity.
Qed.

End LiveBoard.

(** ** The resolved flag *)

Section ResolvedFlag.

Variable OWNER_ID : option Z.

Lemma get_bets_marked (d : db) (mid mid' : string) :
  get_bets_for_message (mark_bets_resolved d mid) mid'
  = if decide (mid' = mid)
    then (fun b => {| message_id := message_id b; user_id := user_id b;
                      choice := choice b; amount := amount b; resolved := 1 |})
           <$> get_bets_for_message d mid
    else get_bets_for_message d mid'.
Proof.
  unfold get_bets_for_message, mark_bets_resolved. cbn [bets].
  induction (bets d) as [|b rest IH]; [destruct (decide (mid' = mid)); reflexivity |].
  rewrite fmap_cons, !filter_cons, IH.
  destruct (decide (message_id b = mid)) as [Hm | Hm].
  - rewrite bool_decide_eq_true_2 by exact Hm. cbn [message_id].
    destruct (decide (mid' = mid)) as [-> | Hne].
    + rewrite !decide_True by exact Hm. reflexivity.
    + rewrite !decide_False by congruence. reflexivity.
  - rewrite bool_decide_eq_false_2 by exact Hm.
    destruct (decide (mid' = mid)) as [-> | Hne].
    + rewrite !decide_False by exact Hm. reflexivity.
    + destruct (decide (message_id b = mid')); reflexivity.
Qed.

Lemma mark_bets_resolved_twice (d : db) (mid : string) :
  mark_bets_resolved (mark_bets_resolved d mid) mid = mark_bets_resolved d mid.
Proof.
  unfold mark_bets_resolved. cbn [users bets highest_bet]. f_equal.
  induction (bets d) as [|b rest IH]; [reflexivity |].
  rewrite !fmap_cons, IH. f_equal.
  destruct (decide (message_id b = mid)) as [Hm | Hm].
  - rewrite (bool_decide_eq_true_2 _ Hm). cbn [message_id].
    rewrite (bool_decide_eq_true_2 _ Hm). reflexivity.
  - rewrite (bool_decide_eq_false_2 _ Hm), (bool_decide_eq_false_2 _ Hm). reflexivity.
Qed.

(** X11.  Once [mark_bets_resolved] has flagged the rows of a message that
    has bets, [/resolve] on that message answers that the bet has already
    been resolved and changes nothing, whatever the flags were before.
    Flagging touches no balance, no record and no row of another message, and
    flagging twice is flagging once. *)
Theorem flagged_event_is_not_resolved_again
    (i : interaction) (g : guild) (d : db) (mid : string) (winning_choice : Z)
    (msg : message) :
  resolve_guards OWNER_ID i g mid winning_choice = inr msg ->
  get_bets_for_message d (msg_id msg) <> [] ->
  let d1 := mark_bets_resolved d (msg_id msg) in
  cmd_resolve OWNER_ID i g d1 mid winning_choice = (d1, AlreadyResolvedError) /\
  mark_bets_resolved d1 (msg_id msg) = d1 /\
  users d1 = users d /\ highest_bet d1 = highest_bet d /\
  length (bets d1) = length (bets d) /\
  (forall other, other <> msg_id msg ->
     get_bets_for_message d1 other = get_bets_for_message d other).
Proof.
  intros Hg Hne. cbv zeta.
  split; [| split; [apply mark_bets_resolved_twice | split; [reflexivity |
            split; [reflexivity | split]]]].
  - unfold cmd_resolve. rewrite Hg. unfold settle.
    rewrite get_bets_marked, decide_True by reflexivity.
    destruct (get_bets_for_message d (msg_id msg)) as [|b0 bs0]; [congruence |].
    reflexivity.
  - unfold mark_bets_resolved. cbn [bets]. apply length_fmap.
  - intros other Hother. rewrite get_bets_marked, decide_False by exact Hother.
    reflexivity.
Qed.

Lemma pay_bets_bystanders (winning_choice total_winning total_losing : Z)
    (bs : list bet_row) :
  forall (d : db) (acc : list result_row) (u : string),
    u ∉ user_id <$> filter (fun b => choice b = winning_choice) bs ->
    users (pay_bets winning_choice total_winning total_losing bs d acc).1 !! u
    = users d !! u.
Proof.
  induction bs as [|b rest IH]; intros d acc u Hu; [reflexivity |].
  rewrite filter_cons in Hu.
  destruct (decide (choice b = winning_choice)) as [Hc | Hc].
  - rewrite fmap_cons in Hu. apply not_elem_of_cons in Hu as [Hu1 Hu2].
    destruct (payout_of (amount b) total_winning total_losing) as [e | p] eqn:Hp.
    + rewrite (pay_bets_raises _ _ _ _ _ _ _ e Hc Hp). reflexivity.
    + rewrite (pay_bets_won _ _ _ _ _ _ _ p Hc Hp), (IH _ _ _ Hu2), adjust_users.
      apply lookup_insert_ne. congruence.
  - rewrite (pay_bets_lost _ _ _ _ _ _ _ Hc). apply IH, Hu.
Qed.

(** X12.  Whatever [/resolve] answers, an exception in the middle of the
    payouts included, the only balances it can have changed are those of
    users with a bet on the declared choice of the message it was let
    through for; the highest-bet record is as before, and each of the six
    refusals leaves the whole database as it was. *)
Theorem resolve_touches_only_the_winners
    (i : interaction) (g : guild) (d : db) (mid : string) (winning_choice : Z) :
  let d' := (cmd_resolve OWNER_ID i g d mid winning_choice).1 in
  let reply := (cmd_resolve OWNER_ID i g d mid winning_choice).2 in
  (forall u, users d' !! u <> users d !! u ->
     exists msg b,
       resolve_guards OWNER_ID i g mid winning_choice = inr msg /\
       b ∈ get_bets_for_message d (msg_id msg) /\
       user_id b = u /\ choice b = winning_choice) /\
  highest_bet d' = highest_bet d /\
  match reply with
  | Resolved _ _ _ | Crashed _ => True
  | _ => d' = d
  end.
Proof.
  cbv zeta. split; [| split; [apply cmd_resolve_highest |]].
  - intros u Hu. unfold cmd_resolve in Hu.
    destruct (resolve_guards OWNER_ID i g mid winning_choice) as [r | msg];
      [contradiction |].
    exists msg.
    destruct (decide (u ∈ user_id <$> filter (fun b => choice b = winning_choice)
                            (get_bets_for_message d (msg_id msg)))) as [Hin | Hout].
    + apply list_elem_of_fmap in Hin as (b & Hb & Hin).
      apply list_elem_of_filter in Hin as [Hc Hin]. exists b. auto.
    + exfalso. apply Hu. unfold settle.
      destruct (get_bets_for_message d (msg_id msg)) as [|b0 bs0] eqn:Hbs; [reflexivity |].
      destruct (existsb _ _); [reflexivity |].
      pose proof (pay_bets_bystanders winning_choice
                    (total_for winning_choice (b0 :: bs0))
                    (total_against winning_choice (b0 :: bs0)) (b0 :: bs0) d [] u Hout) as Hfr.
      destruct (pay_bets _ _ _ (b0 :: bs0) d []) as [d1 [e | rs]]; exact Hfr.
  - unfold cmd_resolve.
    destruct (resolve_guards OWNER_ID i g mid winning_choice) as [r | msg].
    + destruct r; exact I || reflexivity.
    + unfold settle.
      destruct (get_bets_for_message d (msg_id msg)) as [|b0 bs0]; [reflexivity |].
      destruct (existsb _ _); [reflexivity |].
      destruct (pay_bets _ _ _ (b0 :: bs0) d []) as [d1 [e | rs]]; exact I.
Qed.

End ResolvedFlag.

Lemma flagged_event_is_not_resolved_again_witness :
  let d1 := mark_bets_resolved sample_db "m" in
  cmd_resolve None sample_author sample_guild d1 "m" 1 = (d1, AlreadyResolvedError) /\
  mark_bets_resolved d1 "m" = d1 /\
  users d1 = users sample_db /\ highest_bet d1 = highest_bet sample_db /\
  length (bets d1) = length (bets sample_db) /\
  (forall other, other <> "m" ->
     get_bets_for_message d1 other = get_bets_for_message sample_db other).
Proof.
  refine (flagged_event_is_not_resolved_again None sample_author sample_guild
            sample_db "m" 1 sample_message _ _).
  - reflexivity.
  - discriminate.
Defined.

(** ** The odds of any pot *)

(** X13.  For any two totals the bot can hold (the losing side below
    [2 ^ 1023]) the odds are computed without an exception and are a finite
    positive double that is neither below [0.25] nor above [1.0]; they are
    [1.0] when either total is 0. *)
Theorem odds_stay_between_quarter_and_one (total_winning total_losing : Z) :
  0 <= total_winning -> 0 <= total_losing < 2 ^ 1023 ->
  exists odds,
    odds_of total_winning total_losing = inr odds /\
    Py.float_lt odds Py.float_0_25 = false /\
    Py.float_lt Py.float_1_0 odds = false /\
    (exists m e, odds = S754_finite false m e /\ Zpos (digits2_pos m) <= 53 /\ e <= -52) /\
    (total_winning = 0 \/ total_losing = 0 -> odds = Py.float_1_0).
Proof.
  intros HW HL.
  destruct (odds_of_bounds total_winning total_losing HW HL) as (odds & Ho & H1 & H2 & H3).
  exists odds. repeat split; try assumption.
  intros Hdeg. rewrite (odds_of_degenerate _ _ Hdeg) in Ho. congruence.
Qed.

Lemma odds_stay_between_quarter_and_one_witness :
  exists odds,
    odds_of 300 0 = inr odds /\
    Py.float_lt odds Py.float_0_25 = false /\
    Py.float_lt Py.float_1_0 odds = false /\
    (exists m e, odds = S754_finite false m e /\ Zpos (digits2_pos m) <= 53 /\ e <= -52) /\
    (300 = 0 \/ 0 = 0 -> odds = Py.float_1_0).
Proof.
  apply (odds_stay_between_quarter_and_one 300 0).
  - lia.
  - split; [lia | reflexivity].
Defined.
